(** * agatesql.table: the bridge between agate tables and SQL tables

    A shallow embedding of [agatesql/table.py].  The module keeps one piece
    of module-level state, the dictionary [SQL_TYPE_MAP]; everything else it
    touches lives behind SQLAlchemy (engines, connections, statements) or
    behind agate (tables and their aggregations).  Both collaborators are
    represented by an environment record: an oracle that says what the
    database reflects, returns and whether an operation raises, and the
    aggregation queries of agate.  The functions of the module are written
    in a state-and-exception monad over a [World] that holds the type map,
    the sets of closed connections and disposed engines, and the trace of
    operations sent to the database client. *)

From Stdlib Require Import ZArith List Bool Ascii String Lia.
From stdpp Require Import base option gmap strings list.

Local Open Scope string_scope.
Local Open Scope Z_scope.
Local Open Scope list_scope.

(** ** agate: data types and tables *)

(** The six data type classes of agate used as keys of [SQL_TYPE_MAP]. *)
Inductive agate_type : Type :=
  | Boolean | Number | Date | DateTime | TimeDelta | Text.

#[global] Instance agate_type_eq_dec : EqDecision agate_type.
Proof. solve_decision. Defined.

(** A column's [data_type] is an instance of one of the six classes, or of
    some other [DataType] subclass the module does not know about. *)
Inductive DataType : Type :=
  | Instance_of (cls : agate_type)
  | Custom (name : string).

#[global] Instance DataType_eq_dec : EqDecision DataType.
Proof. solve_decision. Defined.

(** [isinstance(data_type, agate_type)] *)
Definition isinstance (dt : DataType) (cls : agate_type) : bool :=
  match dt with
  | Instance_of c => bool_decide (c = cls)
  | Custom _ => false
  end.

(** Cell values; rows are only sliced and forwarded by this module. *)
Inductive Value : Type :=
  | VNone
  | VStr (s : string)
  | VDecimal (mantissa exponent : Z)
  | VBool (b : bool).

Definition Row : Type := list Value.

Record AgateTable : Type := mkTable {
  column_names : list string;
  column_types : list DataType;
  rows : list Row;
}.

(** [table.columns.items()] *)
Definition columns_items (t : AgateTable) : list (string * DataType) :=
  zip (column_names t) (column_types t).

(** ** SQLAlchemy: types, columns, tables, engines and connections *)

(** The type classes imported by the module, and any other class a
    reflected column may carry. *)
Inductive sql_type : Type :=
  | BOOLEAN | BIT | DATE | DATETIME | DECIMAL | FLOAT | TEXT | TIMESTAMP
  | VARCHAR | Interval | POSTGRES_INTERVAL | ORACLE_INTERVAL
  | OtherType (name : string).

#[global] Instance sql_type_eq_dec : EqDecision sql_type.
Proof. solve_decision. Defined.

(** Values of [sql_column.type.python_type]. *)
Inductive py_type : Type :=
  | py_int | py_float | py_Decimal | py_bool
  | py_str | py_str_subclass (name : string)
  | py_date | py_datetime | py_timedelta
  | py_other (name : string).

#[global] Instance py_type_eq_dec : EqDecision py_type.
Proof. solve_decision. Defined.

(** A type instance built by calling [sql_column_type] with the keyword
    arguments of [sql_type_kwargs]. *)
Record TypeEngine : Type := mkType {
  type_class : sql_type;
  length_kw : option Z;
  precision_kw : option Z;
  scale_kw : option Z;
}.

(** A [Column] built from a name, a type and [sql_column_kwargs];
    [nullable] is the keyword argument, absent when it was not passed. *)
Record Column : Type := mkColumn {
  name : string;
  type_ : TypeEngine;
  nullable : option bool;
}.

(** SQLAlchemy's default for a column that is not a primary key. *)
Definition is_nullable (c : Column) : bool := default true (nullable c).

Record SqlTable : Type := mkSqlTable {
  sql_table_name : string;
  sql_table_schema : option string;
  sql_table_columns : list Column;
  unique_constraints : list (list string);
}.

(** A column as reflected from the database by [autoload_with]. *)
Record ReflectedColumn : Type := mkReflected {
  rc_name : string;
  rc_type : sql_type;
  python_type : py_type;
  asdecimal : bool;
}.

Record Engine : Type := mkEngine {
  engine_id : nat;
  engine_url : string;
  fast_executemany : bool;
  dialect_name : string;
}.

Record Connection : Type := mkConnection {
  connection_id : nat;
  engine : Engine;
}.

(** [sql_table.insert()] followed by [prefix_with] calls. *)
Record InsertStmt : Type := mkInsert {
  insert_into : SqlTable;
  insert_prefixes : list string;
}.

Definition prefix_with (i : InsertStmt) (p : string) : InsertStmt :=
  mkInsert (insert_into i) (insert_prefixes i ++ [p]).

(** Operations handed to the database client, in the order they are
    attempted. *)
Inductive Event : Type :=
  | create_engine_ev (e : Engine)
  | connect_ev (c : Connection)
  | autoload_ev (c : Connection) (tname : string)
  | select_ev (c : Connection) (tname : string) (cols : list ReflectedColumn)
  | read_rows_ev (c : Connection)
  | drop_ev (c : Connection) (t : SqlTable) (checkfirst : bool)
  | create_ev (c : Connection) (t : SqlTable) (checkfirst : bool)
  | insert_ev (c : Connection) (stmt : InsertStmt) (params : list (list (string * Value)))
  | exec_driver_sql_ev (c : Connection) (q : string)
  | close_ev (c : Connection)
  | dispose_ev (e : Engine).

(** A result cursor: the rows it yields and [rows._metadata.keys]. *)
Record Cursor : Type := mkCursor {
  cursor_connection : Connection;
  cursor_rows : list Row;
  cursor_keys : list string;
}.

(** ** Exceptions *)

Inductive Exn : Type :=
  | Unsupported_sqlalchemy_column_type (t : sql_type)
      (* ValueError('Unsupported sqlalchemy column type: %s' % type(sql_column.type)) *)
  | Unsupported_column_type (dt : DataType)
      (* ValueError('Unsupported column type: %s' % column.data_type) *)
  | NoneType_not_iterable
      (* TypeError raised by list(None) *)
  | ZeroDivisionError
  | ResourceClosedError (c : Connection)
  | DatabaseError (ev : Event).

Inductive Result (A : Type) : Type :=
  | Return (a : A)
  | Raise (e : Exn).
Arguments Return {A} a.
Arguments Raise {A} e.

(** ** The world *)

Definition TypeMap : Type := list (agate_type * option sql_type).

Record World : Type := mkWorld {
  SQL_TYPE_MAP_now : TypeMap;
  opened_engines : gset nat;
  opened_connections : gset nat;
  closed : gset nat;
  disposed : gset nat;
  log : list Event;
}.

(** ** The state-and-exception monad *)

Definition M (A : Type) : Type := World -> Result A * World.

Definition ret {A} (a : A) : M A := fun w => (Return a, w).

Definition bind {A B} (m : M A) (k : A -> M B) : M B := fun w =>
  match m w with
  | (Return a, w1) => k a w1
  | (Raise e, w1) => (Raise e, w1)
  end.

Definition raise {A} (e : Exn) : M A := fun w => (Raise e, w).

(** [try: body finally: fin] *)
Definition try_finally {A} (body : M A) (fin : M unit) : M A := fun w =>
  match body w with
  | (r, w1) =>
      match fin w1 with
      | (Return _, w2) => (r, w2)
      | (Raise e, w2) => (Raise e, w2)
      end
  end.

(** The monad is registered with stdpp's [mret]/[mbind] classes, which gives
    the notations [x ← m; k], ['(a, b) ← m; k] and [m;; k]. *)
#[global] Instance M_ret : MRet M := @ret.
#[global] Instance M_bind : MBind M := fun A B k m => bind m k.

(** [for x in xs: body x] *)
Fixpoint for_each {A} (xs : list A) (body : A -> M unit) : M unit :=
  match xs with
  | [] => mret tt
  | x :: xs' => body x;; for_each xs' body
  end.

Definition when (b : bool) (m : M unit) : M unit := if b then m else mret tt.

Definition gets {A} (f : World -> A) : M A := fun w => (Return (f w), w).
Definition modify (f : World -> World) : M unit := fun w => (Return tt, f w).

Definition with_type_map (m : TypeMap) (w : World) : World :=
  mkWorld m (opened_engines w) (opened_connections w) (closed w) (disposed w) (log w).
Definition with_log (l : list Event) (w : World) : World :=
  mkWorld (SQL_TYPE_MAP_now w) (opened_engines w) (opened_connections w)
          (closed w) (disposed w) l.
Definition add_engine (e : Engine) (w : World) : World :=
  mkWorld (SQL_TYPE_MAP_now w) ({[engine_id e]} ∪ opened_engines w)
          (opened_connections w) (closed w) (disposed w) (log w).
Definition add_connection (c : Connection) (w : World) : World :=
  mkWorld (SQL_TYPE_MAP_now w) (opened_engines w)
          ({[connection_id c]} ∪ opened_connections w) (closed w) (disposed w) (log w).
Definition mark_closed (c : Connection) (w : World) : World :=
  mkWorld (SQL_TYPE_MAP_now w) (opened_engines w) (opened_connections w)
          ({[connection_id c]} ∪ closed w) (disposed w) (log w).
Definition mark_disposed (e : Engine) (w : World) : World :=
  mkWorld (SQL_TYPE_MAP_now w) (opened_engines w) (opened_connections w)
          (closed w) ({[engine_id e]} ∪ disposed w) (log w).

(** ** Python dictionaries, ranges and slices *)

(** [d[k] = v] on an insertion-ordered dictionary: an existing key keeps its
    position, a new key goes last. *)
Fixpoint dict_setitem {K V} `{EqDecision K} (k : K) (v : V) (d : list (K * V))
    : list (K * V) :=
  match d with
  | [] => [(k, v)]
  | (k', v') :: d' =>
      if decide (k = k') then (k, v) :: d' else (k', v') :: dict_setitem k v d'
  end.

(** [d.get(key, default)] on a dictionary keyed by dialect names; the key may
    be [None], which none of the dictionaries below contains. *)
Definition dict_get {V} (d : gmap string V) (key : option string) (dflt : V) : V :=
  default dflt (key ≫= (d !!.)).

(** [list(range(n))]; empty when [n <= 0]. *)
Definition range (n : Z) : list Z := Z.of_nat <$> seq 0 (Z.to_nat n).

(** A slice bound brought into [0 .. len], as Python does for [l[a:b]]. *)
Definition clamp_index (len i : Z) : Z :=
  if i <? 0 then Z.max (i + len) 0 else Z.min i len.

(** [l[a:b]] *)
Definition slice {A} (l : list A) (a b : Z) : list A :=
  let len := Z.of_nat (length l) in
  let lo := clamp_index len a in
  let hi := clamp_index len b in
  take (Z.to_nat (hi - lo)) (drop (Z.to_nat lo) l).

(** [s.split(sep)] for a one-character separator: empty pieces are kept. *)
Fixpoint split (sep : Ascii.ascii) (s : string) : list string :=
  match s with
  | EmptyString => [EmptyString]
  | String c s' =>
      if Ascii.eqb c sep then EmptyString :: split sep s'
      else match split sep s' with
           | piece :: pieces => String c piece :: pieces
           | [] => [String c EmptyString]
           end
  end.

(** ** Module-level dictionaries *)

Definition SQL_TYPE_MAP : TypeMap :=
  [ (Boolean, None);    (* See below *)
    (Number, None);     (* See below *)
    (Date, Some DATE);
    (DateTime, None);   (* See below *)
    (TimeDelta, None);  (* See below *)
    (Text, Some VARCHAR) ].

Definition DATETIME_MAP : gmap string sql_type := {[ "mssql" := DATETIME ]}.

Definition BOOLEAN_MAP : gmap string sql_type := {[ "mssql" := BIT ]}.

Definition NUMBER_MAP : gmap string sql_type :=
  <[ "crate" := FLOAT ]> (<[ "sqlite" := FLOAT ]> ∅).

Definition INTERVAL_MAP : gmap string sql_type :=
  <[ "postgresql" := POSTGRES_INTERVAL ]> (<[ "oracle" := ORACLE_INTERVAL ]> ∅).

(** [t in INTERVAL_MAP.values()] *)
Definition in_INTERVAL_MAP_values (t : sql_type) : bool :=
  bool_decide (t ∈ (map_to_list INTERVAL_MAP).*2).

(** The initial world of a freshly imported module. *)
Definition initial_world : World := mkWorld SQL_TYPE_MAP ∅ ∅ ∅ ∅ [].

(** ** The collaborators

    What SQLAlchemy, the database behind it and agate answer.  [raises]
    decides, from the operations attempted so far, whether the next one
    raises; the other fields are the values the module reads back. *)
Record Env : Type := mkEnv {
  raises : list Event -> Event -> bool;
  urlsplit_scheme : string -> string;
  url_dialect : string -> string;
  reflected_columns : list Event -> Connection -> string -> list ReflectedColumn;
  result_rows : list Event -> Event -> list Row;
  result_keys : list Event -> Event -> list string;
  type_tester : list Row -> list string -> list DataType;
  MaxLength : AgateTable -> string -> Z;
  MaxPrecision : AgateTable -> string -> Z;
  HasNulls : AgateTable -> string -> bool;
}.

(** The argument [connection_or_string]. *)
Inductive connection_or_string : Type :=
  | Absent
  | Existing (c : Connection)
  | ConnectionString (url : string).

(** Keyword arguments of [to_sql]. *)
Record to_sql_kwargs : Type := mkKwargs {
  overwrite : bool;
  create : bool;
  create_if_not_exists : bool;
  do_insert : bool;
  prefixes : list string;
  db_schema : option string;
  constraints : bool;
  unique_constraint : list string;
  chunk_size : option Z;
  min_col_len : Z;
  col_len_multiplier : Z;
}.

Definition to_sql_defaults : to_sql_kwargs :=
  mkKwargs false true false true [] None true [] None 1 1.

Section Bridge.

Variable env : Env.

(** *** Calls into SQLAlchemy *)

(** Hand an operation to the client: it is recorded, and raises when the
    oracle says so. *)
Definition attempt (ev : Event) : M unit := fun w =>
  let w' := with_log (log w ++ [ev]) w in
  if raises env (log w) ev then (Raise (DatabaseError ev), w') else (Return tt, w').

(** An operation on a connection raises at once when the connection has
    been closed. *)
Definition on_connection (c : Connection) (ev : Event) : M unit := fun w =>
  if bool_decide (connection_id c ∈ closed w)
  then (Raise (ResourceClosedError c), w)
  else attempt ev w.

Definition create_engine (url : string) (fast : bool) : M Engine :=
  ids ← gets opened_engines;
  let e := mkEngine (fresh ids) url fast (url_dialect env url) in
  attempt (create_engine_ev e);;
  modify (add_engine e);;
  mret e.

Definition connect (e : Engine) : M Connection :=
  ids ← gets opened_connections;
  let c := mkConnection (fresh ids) e in
  attempt (connect_ev c);;
  modify (add_connection c);;
  mret c.

Definition close (c : Connection) : M unit :=
  attempt (close_ev c);; modify (mark_closed c).

Definition dispose (e : Engine) : M unit :=
  attempt (dispose_ev e);; modify (mark_disposed e).

(** Run a statement and hand back its cursor. *)
Definition execute (c : Connection) (ev : Event) : M Cursor :=
  history ← gets log;
  on_connection c ev;;
  mret (mkCursor c (result_rows env history ev) (result_keys env history ev)).

(** [agate.Table(rows, column_names, column_types)]: the cursor is read to
    the end; absent column types are inferred by agate's type tester. *)
Definition agate_Table (cur : Cursor) (names : list string)
    (types : option (list DataType)) : M AgateTable :=
  on_connection (cursor_connection cur) (read_rows_ev (cursor_connection cur));;
  let data := cursor_rows cur in
  mret (mkTable names (default (type_tester env data names) types) data).

(** *** get_engine_and_connection *)

Definition get_engine_and_connection (connection_or_string : connection_or_string)
    : M (option Engine * Connection) :=
  match connection_or_string with
  | Absent =>
      eng ← create_engine "sqlite:///:memory:" false;
      connection ← connect eng;
      mret (None, connection)
  | Existing connection =>
      mret (None, connection)
  | ConnectionString url =>
      let fast := bool_decide (urlsplit_scheme env url = "mssql+pyodbc") in
      eng ← create_engine url fast;
      connection ← connect eng;
      mret (Some eng, connection)
  end.

(** The [finally] block shared by [from_sql] and [to_sql]. *)
Definition release (eng : option Engine) (connection : Connection) : M unit :=
  match eng with
  | Some e => close connection;; dispose e
  | None => mret tt
  end.

(** *** from_sql *)

(** The type tested by the chain of branches: [datetime.timedelta] for the
    interval classes of [INTERVAL_MAP], else the column's [python_type]. *)
Definition py_type_of (sql_column : ReflectedColumn) : py_type :=
  if in_INTERVAL_MAP_values (rc_type sql_column) then py_timedelta
  else python_type sql_column.

Definition issubclass_str (t : py_type) : bool :=
  match t with
  | py_str | py_str_subclass _ => true
  | _ => false
  end.

Definition set_asdecimal (sql_column : ReflectedColumn) : ReflectedColumn :=
  mkReflected (rc_name sql_column) (rc_type sql_column) (python_type sql_column) true.

(** One turn of the loop over [sql_table.columns]: the agate type appended
    to [column_types], and the column with [asdecimal] set for floats. *)
Definition infer_column (sql_column : ReflectedColumn) : M (DataType * ReflectedColumn) :=
  let py := py_type_of sql_column in
  if bool_decide (py ∈ [py_int; py_float; py_Decimal]) then
    mret (Instance_of Number,
          if bool_decide (py = py_float) then set_asdecimal sql_column else sql_column)
  else if bool_decide (py = py_bool) then mret (Instance_of Boolean, sql_column)
  else if issubclass_str py then mret (Instance_of Text, sql_column)
  else if bool_decide (py = py_date) then mret (Instance_of Date, sql_column)
  else if bool_decide (py = py_datetime) then mret (Instance_of DateTime, sql_column)
  else if bool_decide (py = py_timedelta) then mret (Instance_of TimeDelta, sql_column)
  else raise (Unsupported_sqlalchemy_column_type (rc_type sql_column)).

Fixpoint infer_columns (cols : list ReflectedColumn)
    : M (list string * list DataType * list ReflectedColumn) :=
  match cols with
  | [] => mret ([], [], [])
  | sql_column :: rest =>
      '(data_type, sql_column') ← infer_column sql_column;
      '(names, types, cols') ← infer_columns rest;
      mret (rc_name sql_column :: names, data_type :: types, sql_column' :: cols')
  end.

Definition from_sql (connection_or_string : connection_or_string) (table_name : string)
    : M AgateTable :=
  '(eng, connection) ← get_engine_and_connection connection_or_string;
  history ← gets log;
  on_connection connection (autoload_ev connection table_name);;
  let sql_table := reflected_columns env history connection table_name in
  '(column_names, column_types, sql_table') ← infer_columns sql_table;
  rows ← execute connection (select_ev connection table_name sql_table');
  try_finally (agate_Table rows column_names (Some column_types))
              (release eng connection).

(** *** make_sql_column *)

(** The loop over [SQL_TYPE_MAP.items()] with its [break]: the value stored
    under the first key the data type is an instance of, if any. *)
Fixpoint first_isinstance (data_type : DataType) (items : TypeMap) : option sql_type :=
  match items with
  | [] => None
  | (agate_type, sql_type) :: rest =>
      if isinstance data_type agate_type then sql_type
      else first_isinstance data_type rest
  end.

Record type_kwargs : Type := mkTypeKwargs {
  kw_length : option Z;
  kw_precision : option Z;
  kw_scale : option Z;
}.

Definition make_sql_column (column_name : string) (data_type : DataType)
    (sql_type_kwargs : type_kwargs) (sql_column_kwargs : option bool)
    (sql_column_type : option sql_type) : M Column :=
  type_map ← gets SQL_TYPE_MAP_now;
  let sql_column_type :=
    match sql_column_type with
    | Some t => Some t
    | None => first_isinstance data_type type_map
    end in
  match sql_column_type with
  | None => raise (Unsupported_column_type data_type)
  | Some t =>
      mret (mkColumn column_name
              (mkType t (kw_length sql_type_kwargs) (kw_precision sql_type_kwargs)
                      (kw_scale sql_type_kwargs))
              sql_column_kwargs)
  end.

(** *** make_sql_table *)

(** [SQL_TYPE_MAP[key] = value] on the module-level dictionary. *)
Definition SQL_TYPE_MAP_setitem (key : agate_type) (value : sql_type) : M unit :=
  modify (fun w => with_type_map (dict_setitem key (Some value) (SQL_TYPE_MAP_now w)) w).

(** The four assignments that open [make_sql_table]. *)
Definition set_dialect_types (dialect : option string) : M unit :=
  SQL_TYPE_MAP_setitem Boolean (dict_get BOOLEAN_MAP dialect BOOLEAN);;
  SQL_TYPE_MAP_setitem DateTime (dict_get DATETIME_MAP dialect TIMESTAMP);;
  SQL_TYPE_MAP_setitem Number (dict_get NUMBER_MAP dialect DECIMAL);;
  SQL_TYPE_MAP_setitem TimeDelta (dict_get INTERVAL_MAP dialect Interval).

(** [dialect in (...)] and [dialect == ...] for an optional dialect. *)
Definition dialect_in (dialect : option string) (names : list string) : bool :=
  match dialect with
  | Some d => bool_decide (d ∈ names)
  | None => false
  end.

Definition dialect_is (dialect : option string) (d : string) : bool :=
  bool_decide (dialect = Some d).

(** Lines 199-210: the column type override and the [length] keyword of a
    Text column on ingres and mysql. *)
Definition text_rule (table : AgateTable) (column_name : string) (data_type : DataType)
    (dialect : option string) (min_col_len col_len_multiplier : Z)
    : option sql_type * option Z :=
  if isinstance data_type Text && dialect_in dialect ["ingres"; "mysql"] then
    let length := MaxLength env table column_name * col_len_multiplier in
    if dialect_is dialect "mysql" && (21844 <? length)
       || dialect_is dialect "ingres" && (10666 <? length)
    then (Some TEXT, None)
    else (None, Some (if min_col_len <=? length then length else min_col_len))
  else (None, None).

(** Lines 215-225: [precision] and [scale] of a Number column. *)
Definition number_rule (table : AgateTable) (column_name : string) (data_type : DataType)
    (dialect : option string) : option Z * option Z :=
  if isinstance data_type Number
     && dialect_in dialect ["ingres"; "mssql"; "mysql"; "oracle"]
  then (Some 38, Some (MaxPrecision env table column_name))
  else (None, None).

(** Lines 229-230: the [nullable] keyword. *)
Definition nullable_rule (table : AgateTable) (column_name : string) (data_type : DataType)
    : option bool :=
  if negb (isinstance data_type DateTime)
  then Some (HasNulls env table column_name)
  else None.

(** The body of the loop over [table.columns.items()]. *)
Definition make_table_column (table : AgateTable) (dialect : option string)
    (constraints : bool) (min_col_len col_len_multiplier : Z)
    (item : string * DataType) : M Column :=
  let '(column_name, data_type) := item in
  if constraints then
    let '(sql_column_type, length) :=
      text_rule table column_name data_type dialect min_col_len col_len_multiplier in
    let '(precision, scale) := number_rule table column_name data_type dialect in
    make_sql_column column_name data_type (mkTypeKwargs length precision scale)
                    (nullable_rule table column_name data_type) sql_column_type
  else
    make_sql_column column_name data_type (mkTypeKwargs None None None) None None.

Fixpoint for_columns (items : list (string * DataType))
    (body : string * DataType -> M Column) : M (list Column) :=
  match items with
  | [] => mret []
  | item :: rest =>
      column ← body item;
      columns ← for_columns rest body;
      mret (column :: columns)
  end.

(** The loop of [make_sql_table] and what follows it. *)
Definition build_sql_table (table : AgateTable) (table_name : string)
    (dialect db_schema : option string) (constraints : bool)
    (unique_constraint : list string) (min_col_len col_len_multiplier : Z)
    : M SqlTable :=
  columns ← for_columns (columns_items table)
    (make_table_column table dialect constraints min_col_len col_len_multiplier);
  mret (mkSqlTable table_name db_schema columns
          (match unique_constraint with
           | [] => []
           | _ :: _ => [unique_constraint]
           end)).

Definition make_sql_table (table : AgateTable) (table_name : string)
    (dialect db_schema : option string) (constraints : bool)
    (unique_constraint : list string) (min_col_len col_len_multiplier : Z)
    : M SqlTable :=
  set_dialect_types dialect;;
  build_sql_table table table_name dialect db_schema constraints unique_constraint
                  min_col_len col_len_multiplier.

(** *** to_sql *)

(** [dict(zip(self.column_names, row))] *)
Definition row_dict (self : AgateTable) (row : Row) : list (string * Value) :=
  zip (column_names self) row.

(** The rows sent by the [index]-th turn of the chunked loop. *)
Definition chunk (self : AgateTable) (chunk_size index : Z) : list (list (string * Value)) :=
  let number_of_rows := Z.of_nat (length (rows self)) in
  let end_index := (index + 1) * chunk_size in
  let end_index := if number_of_rows <? end_index then number_of_rows else end_index in
  row_dict self <$> slice (rows self) (index * chunk_size) end_index.

(** The [if insert:] block. *)
Definition insert_rows (self : AgateTable) (connection : Connection)
    (sql_table : SqlTable) (prefixes : list string) (chunk_size : option Z) : M unit :=
  let insert := fold_left prefix_with prefixes (mkInsert sql_table []) in
  match chunk_size with
  | None =>
      on_connection connection (insert_ev connection insert (row_dict self <$> rows self))
  | Some chunk_size =>
      let number_of_rows := Z.of_nat (length (rows self)) in
      if chunk_size =? 0 then raise ZeroDivisionError
      else
        for_each (range ((number_of_rows - 1) `div` chunk_size + 1)) (fun index =>
          on_connection connection
            (insert_ev connection insert (chunk self chunk_size index)))
  end.

Definition to_sql (self : AgateTable) (connection_or_string : connection_or_string)
    (table_name : string) (kw : to_sql_kwargs) : M SqlTable :=
  '(eng, connection) ← get_engine_and_connection connection_or_string;
  let dialect := dialect_name (engine connection) in
  sql_table ← make_sql_table self table_name (Some dialect) (db_schema kw)
                (constraints kw) (unique_constraint kw)
                (min_col_len kw) (col_len_multiplier kw);
  when (create kw) (
    when (overwrite kw) (on_connection connection (drop_ev connection sql_table true));;
    on_connection connection (create_ev connection sql_table (create_if_not_exists kw)));;
  when (do_insert kw)
    (insert_rows self connection sql_table (prefixes kw) (chunk_size kw));;
  try_finally (mret sql_table) (release eng connection).

(** *** sql_query *)

(** The loop over the pieces of the query text; [rows] starts as [None]. *)
Fixpoint run_queries (connection : Connection) (queries : list string)
    (rows : option Cursor) : M (option Cursor) :=
  match queries with
  | [] => mret rows
  | q :: rest =>
      match q with
      | EmptyString => run_queries connection rest rows
      | String _ _ =>
          cur ← execute connection (exec_driver_sql_ev connection q);
          run_queries connection rest (Some cur)
      end
  end.

Definition sql_query (self : AgateTable) (query : string) (table_name : string)
    : M AgateTable :=
  '(_, connection) ← get_engine_and_connection Absent;
  let queries := split ";" query in
  to_sql self (Existing connection) table_name to_sql_defaults;;
  rows ← run_queries connection queries None;
  match rows with
  | None => raise NoneType_not_iterable
  | Some cur => agate_Table cur (cursor_keys cur) None
  end.

End Bridge.

(** * Vocabulary of the properties *)

(** The table from Python types to agate types that the branches of the
    loop implement; [None] where no branch applies. *)
Definition tabular_kind (py : py_type) : option agate_type :=
  match py with
  | py_int | py_float | py_Decimal => Some Number
  | py_bool => Some Boolean
  | py_str | py_str_subclass _ => Some Text
  | py_date => Some Date
  | py_datetime => Some DateTime
  | py_timedelta => Some TimeDelta
  | py_other _ => None
  end.

Definition supported_column (c : ReflectedColumn) : Prop :=
  is_Some (tabular_kind (py_type_of c)).

(** The states the module-level dictionary can be in: its six keys in their
    order, with the two entries no assignment ever touches. *)
Definition type_map_inv (m : TypeMap) : Prop :=
  exists b n dt td,
    m = [ (Boolean, b); (Number, n); (Date, Some DATE);
          (DateTime, dt); (TimeDelta, td); (Text, Some VARCHAR) ].

(** The SQL type of an agate type under a dialect, as a function. *)
Definition type_for (dialect : option string) (k : agate_type) : sql_type :=
  match k with
  | Boolean => dict_get BOOLEAN_MAP dialect BOOLEAN
  | Number => dict_get NUMBER_MAP dialect DECIMAL
  | Date => DATE
  | DateTime => dict_get DATETIME_MAP dialect TIMESTAMP
  | TimeDelta => dict_get INTERVAL_MAP dialect Interval
  | Text => VARCHAR
  end.

(** The dictionary as the four assignments of [make_sql_table] leave it. *)
Definition dialect_type_map (dialect : option string) : TypeMap :=
  (fun k => (k, Some (type_for dialect k)))
    <$> [Boolean; Number; Date; DateTime; TimeDelta; Text].

Section Vocabulary.

Variable env : Env.

(** The column [make_sql_table] builds for an instance of one of the six
    classes, once the dictionary holds the dialect's types. *)
Definition table_column (table : AgateTable) (dialect : option string)
    (constraints : bool) (min_col_len col_len_multiplier : Z)
    (column_name : string) (k : agate_type) : Column :=
  let data_type := Instance_of k in
  if constraints then
    let '(override, length) :=
      text_rule env table column_name data_type dialect min_col_len col_len_multiplier in
    let '(precision, scale) := number_rule env table column_name data_type dialect in
    mkColumn column_name
      (mkType (default (type_for dialect k) override) length precision scale)
      (nullable_rule env table column_name data_type)
  else mkColumn column_name (mkType (type_for dialect k) None None None) None.

End Vocabulary.

(** The first reflected column no branch of the inference loop accepts. *)
Definition first_unsupported (cols : list ReflectedColumn) : option ReflectedColumn :=
  List.find (fun c => bool_decide (tabular_kind (py_type_of c) = None)) cols.

(** A data type has an entry in the type map when it is an instance of one
    of the dictionary's keys. *)
Definition has_type_map_entry (dt : DataType) : bool :=
  existsb (isinstance dt) (SQL_TYPE_MAP.*1).

(** The first column of a table whose data type has no entry. *)
Definition first_without_entry (table : AgateTable) : option (string * DataType) :=
  List.find (fun item => negb (has_type_map_entry item.2)) (columns_items table).

(** The character budget of a bounded text column on the two dialects with
    a row-size limit. *)
Definition text_budget (dialect : string) : Z :=
  if bool_decide (dialect = "mysql") then 21844 else 10666.

(** ** A sample environment for the examples

    The database never raises unless [failing] says so, holds no tables and
    returns empty results; the aggregations are computed from the rows. *)
Definition column_index (table : AgateTable) (column_name : string) : option nat :=
  fst <$> list_find (fun n => n = column_name) (column_names table).

Definition column_values (table : AgateTable) (column_name : string) : list Value :=
  match column_index table column_name with
  | Some i => omap (fun row : Row => row !! i) (rows table)
  | None => []
  end.

Definition text_length (v : Value) : Z :=
  match v with
  | VStr s => Z.of_nat (String.length s)
  | _ => 0
  end.

Definition decimal_places (v : Value) : Z :=
  match v with
  | VDecimal _ exponent => Z.max 0 (- exponent)
  | _ => 0
  end.

Definition is_null (v : Value) : bool :=
  match v with
  | VNone => true
  | _ => false
  end.

Definition sample_env_with (failing : list Event -> Event -> bool) : Env :=
  mkEnv failing
    (fun url => hd "" (split ":" url))
    (fun url => hd "" (split "+" (hd "" (split ":" url))))
    (fun _ _ _ => [])
    (fun _ _ => [])
    (fun _ _ => [])
    (fun _ names => (fun _ => Instance_of Text) <$> names)
    (fun table column_name => foldr Z.max 0 (text_length <$> column_values table column_name))
    (fun table column_name => foldr Z.max 0 (decimal_places <$> column_values table column_name))
    (fun table column_name => existsb is_null (column_values table column_name)).

Definition sample_env : Env := sample_env_with (fun _ _ => false).

(** Three rows of a name, an amount, a flag and a timestamp kept as text in
    the rows. *)
Definition sample_table : AgateTable :=
  mkTable ["name"; "amount"; "flag"; "seen"]
          [Instance_of Text; Instance_of Number; Instance_of Boolean; Instance_of DateTime]
          [ [VStr "ada"; VDecimal 125 (-2); VBool true; VNone];
            [VStr "grace"; VNone; VBool false; VNone];
            [VStr "edsger"; VDecimal 3 0; VBool true; VNone] ].

Definition no_type_kwargs : type_kwargs := mkTypeKwargs None None None.

(** ** Resources and traces *)

Definition is_release (ev : Event) : bool :=
  match ev with
  | close_ev _ | dispose_ev _ => true
  | _ => false
  end.

Definition is_statement (ev : Event) : bool :=
  match ev with
  | exec_driver_sql_ev _ _ => true
  | _ => false
  end.

(** The operations [to_sql] sends on a connection, and those of [from_sql]. *)
Definition is_write (ev : Event) : bool :=
  match ev with
  | drop_ev _ _ _ | create_ev _ _ _ | insert_ev _ _ _ => true
  | _ => false
  end.

Definition is_read (ev : Event) : bool :=
  match ev with
  | autoload_ev _ _ | select_ev _ _ _ | read_rows_ev _ => true
  | _ => false
  end.

(** Between [w] and [w'] no engine or connection was opened, closed or
    disposed, and every operation attempted satisfies [P]. *)
Definition same_resources (P : Event -> bool) (w w' : World) : Prop :=
  opened_engines w' = opened_engines w
  /\ opened_connections w' = opened_connections w
  /\ closed w' = closed w
  /\ disposed w' = disposed w
  /\ exists evs, log w' = log w ++ evs /\ Forall (fun ev => P ev = true) evs.

Definition quiet {A} (P : Event -> bool) (m : M A) : Prop :=
  forall w, same_resources P w (m w).2.

(** Between [w] and [w'] one engine and one connection were opened; they are
    the resources the call owns. *)
Definition owned_engine (w : World) : nat := fresh (opened_engines w).
Definition owned_connection (w : World) : nat := fresh (opened_connections w).

Definition opened_own (w w' : World) : Prop :=
  opened_engines w' = {[owned_engine w]} ∪ opened_engines w
  /\ opened_connections w' = {[owned_connection w]} ∪ opened_connections w.

(** ... and both have been released. *)
Definition released_own (w w' : World) : Prop :=
  opened_own w w'
  /\ closed w' = {[owned_connection w]} ∪ closed w
  /\ disposed w' = {[owned_engine w]} ∪ disposed w.

(** ... and neither has been released. *)
Definition kept_own (w w' : World) : Prop :=
  opened_own w w'
  /\ closed w' = closed w
  /\ disposed w' = disposed w.

Definition not_release (ev : Event) : bool := negb (is_release ev).
Definition not_statement (ev : Event) : bool := negb (is_statement ev).

(** The error of reading the rows of a cursor. *)
Definition read_error (e : Exn) : bool :=
  match e with
  | DatabaseError (read_rows_ev _) => true
  | _ => false
  end.

(** The exits of a call that pass through its [finally] block untouched:
    a normal return, or the error of reading the rows inside the [try]. *)
Definition left_through_finally {A} (r : Result A) : Prop :=
  match r with
  | Return _ => True
  | Raise e => read_error e = true
  end.

(** Every exception [m] can raise satisfies [Q]. *)
Definition raises_only {A} (Q : Exn -> bool) (m : M A) : Prop :=
  forall w e w', m w = (Raise e, w') -> Q e = true.

Definition not_read_error (e : Exn) : bool := negb (read_error e).

Section Openings.

Variable env : Env.

(** The engine and the connection that [create_engine] and [connect] make
    in world [w], and the world once both exist. *)
Definition new_engine (url : string) (fast : bool) (w : World) : Engine :=
  mkEngine (owned_engine w) url fast (url_dialect env url).

Definition new_connection (url : string) (fast : bool) (w : World) : Connection :=
  mkConnection (owned_connection w) (new_engine url fast w).

Definition after_opening (url : string) (fast : bool) (w : World) : World :=
  mkWorld (SQL_TYPE_MAP_now w)
          ({[owned_engine w]} ∪ opened_engines w)
          ({[owned_connection w]} ∪ opened_connections w)
          (closed w) (disposed w)
          (log w ++ [create_engine_ev (new_engine url fast w);
                     connect_ev (new_connection url fast w)]).

(** Neither opening raises. *)
Definition opens_cleanly (url : string) (fast : bool) (w : World) : Prop :=
  raises env (log w) (create_engine_ev (new_engine url fast w)) = false
  /\ raises env (log w ++ [create_engine_ev (new_engine url fast w)])
            (connect_ev (new_connection url fast w)) = false.

(** The part of [to_sql] between the resolver and the [try]. *)
Definition to_sql_work (self : AgateTable) (connection : Connection)
    (table_name : string) (kw : to_sql_kwargs) : M SqlTable :=
  sql_table ← make_sql_table env self table_name
                (Some (dialect_name (engine connection))) (db_schema kw)
                (constraints kw) (unique_constraint kw)
                (min_col_len kw) (col_len_multiplier kw);
  when (create kw) (
    when (overwrite kw) (on_connection env connection (drop_ev connection sql_table true));;
    on_connection env connection (create_ev connection sql_table (create_if_not_exists kw)));;
  when (do_insert kw)
    (insert_rows env self connection sql_table (prefixes kw) (chunk_size kw));;
  mret sql_table.

(** The part of [from_sql] between the resolver and the [try]. *)
Definition from_sql_work (connection : Connection) (table_name : string)
    : M (Cursor * list string * list DataType) :=
  history ← gets log;
  on_connection env connection (autoload_ev connection table_name);;
  let sql_table := reflected_columns env history connection table_name in
  '(column_names, column_types, sql_table') ← infer_columns sql_table;
  rows ← execute env connection (select_ev connection table_name sql_table');
  mret (rows, column_names, column_types).

End Openings.

(** ** Batches *)

(** The quotient of [n] by [k] rounded up, for a positive [k]. *)
Definition ceil_div (n k : Z) : Z := (n + k - 1) `div` k.

(** The statement [to_sql] executes for an insert. *)
Definition insert_statement (sql_table : SqlTable) (prefixes : list string) : InsertStmt :=
  fold_left prefix_with prefixes (mkInsert sql_table []).

(** ** Sample data for the examples *)

Definition sample_engine : Engine := mkEngine 3 "postgresql://db/prod" false "postgresql".
Definition sample_connection : Connection := mkConnection 5 sample_engine.

(** A world in which the caller has opened [sample_connection]. *)
Definition caller_world : World :=
  mkWorld SQL_TYPE_MAP {[3%nat]} {[5%nat]} ∅ ∅
          [create_engine_ev sample_engine; connect_ev sample_connection].

(** A database that refuses every CREATE TABLE. *)
Definition create_fails (history : list Event) (ev : Event) : bool :=
  match ev with
  | create_ev _ _ _ => true
  | _ => false
  end.

Definition flags_table : AgateTable :=
  mkTable ["flag"] [Instance_of Boolean] [[VBool true]; [VBool false]].

Definition class_of (c : Column) : sql_type := type_class (type_ c).

(** The classes of the columns of a synthesized table, if synthesis returned. *)
Definition classes_of (r : Result SqlTable) : option (list sql_type) :=
  match r with
  | Return t => Some (class_of <$> sql_table_columns t)
  | Raise _ => None
  end.

(** * The rest of the module *)

(** [s.replace(old, new)] for a one-character [old]. *)
Fixpoint replace (old : Ascii.ascii) (new : string) (s : string) : string :=
  match s with
  | EmptyString => EmptyString
  | String c s' =>
      if Ascii.eqb c old then String.append new (replace old new s')
      else String c (replace old new s')
  end.

(** What [to_sql_create_statement] ends in: the statement text, or the
    error of the dialect registry or of the DDL compiler. *)
Inductive create_statement : Type :=
  | Statement (text : string)
  | NoSuchModuleError (dialect : string)
  | CompileError (sql_table : SqlTable).

Section MoreOfTheBridge.

Variable env : Env.

(** *** from_sql_query

    The query text, with every percent sign doubled, goes to the driver of
    a new in-memory database as one statement. *)
Definition from_sql_query (query : string) : M AgateTable :=
  '(_, connection) ← get_engine_and_connection env Absent;
  rows ← execute env connection (exec_driver_sql_ev connection (replace "%" "%%" query));
  agate_Table env rows (cursor_keys rows) None.

(** *** to_sql_create_statement

    SQLAlchemy's dialect registry ([true] where the name loads), its DDL
    compiler for a table and a loaded dialect name (if any), and
    [str.strip] are taken as given. *)
Variable registry_has : string -> bool.
Variable compile : SqlTable -> option string -> option string.
Variable strip : string -> string.

Definition to_sql_create_statement (self : AgateTable) (table_name : string)
    (dialect db_schema : option string) (constraints : bool)
    (unique_constraint : list string) : M create_statement :=
  sql_table ← make_sql_table env self table_name dialect db_schema constraints
                unique_constraint 1 1;
  let truthy :=
    match dialect with
    | Some (String _ _) => true
    | _ => false
    end in
  if truthy && negb (registry_has (default "" dialect))
  then mret (NoSuchModuleError (default "" dialect))
  else
    let sql_dialect := if truthy then dialect else None in
    match compile sql_table sql_dialect with
    | Some text => mret (Statement (String.append (strip text) ";"))
    | None => mret (CompileError sql_table)
    end.

End MoreOfTheBridge.

(** The statement and the batches of the [if insert:] block. *)
Definition insert_events (self : AgateTable) (connection : Connection)
    (sql_table : SqlTable) (prefixes : list string) (chunk_size : option Z)
    : list Event :=
  let stmt := insert_statement sql_table prefixes in
  match chunk_size with
  | None => [insert_ev connection stmt (row_dict self <$> rows self)]
  | Some K =>
      (fun index => insert_ev connection stmt (chunk self K index))
        <$> range ((Z.of_nat (length (rows self)) - 1) `div` K + 1)
  end.

(** The operations of a [to_sql] call in which nothing raises. *)
Definition to_sql_events (self : AgateTable) (connection : Connection)
    (sql_table : SqlTable) (kw : to_sql_kwargs) : list Event :=
  (if create kw && overwrite kw then [drop_ev connection sql_table true] else [])
  ++ (if create kw
      then [create_ev connection sql_table (create_if_not_exists kw)] else [])
  ++ (if do_insert kw
      then insert_events self connection sql_table (prefixes kw) (chunk_size kw)
      else []).

(** The pieces of a query text that [sql_query] executes. *)
Definition statements (query : string) : list string :=
  List.filter (fun q => negb (String.eqb q "")) (split ";" query).

(** [c in s] for a character. *)
Fixpoint contains (c : Ascii.ascii) (s : string) : bool :=
  match s with
  | EmptyString => false
  | String c' s' => Ascii.eqb c' c || contains c s'
  end.

(** The number of occurrences of a character. *)
Fixpoint count (c : Ascii.ascii) (s : string) : nat :=
  match s with
  | EmptyString => O
  | String c' s' => ((if Ascii.eqb c' c then 1 else 0) + count c s')%nat
  end.

(** Undo the doubling of a character: every pair becomes one. *)
Fixpoint undouble (c : Ascii.ascii) (s : string) : string :=
  match s with
  | String c1 (String c2 s' as rest) =>
      if Ascii.eqb c1 c && Ascii.eqb c2 c then String c (undouble c s')
      else String c1 (undouble c rest)
  | _ => s
  end.

(** The column [from_sql] selects for a reflected column: floats are read
    back as decimals. *)
Definition selected_column (sql_column : ReflectedColumn) : ReflectedColumn :=
  if bool_decide (py_type_of sql_column = py_float) then set_asdecimal sql_column
  else sql_column.

(** What [sql_query] may send as a statement: text that is not empty and
    holds no separator. *)
Definition well_cut (ev : Event) : bool :=
  match ev with
  | exec_driver_sql_ev _ q => negb (String.eqb q "") && negb (contains ";" q)
  | _ => true
  end.

(** [sep.join(pieces)] *)
Fixpoint join (sep : string) (pieces : list string) : string :=
  match pieces with
  | [] => EmptyString
  | [p] => p
  | p :: rest => String.append p (String.append sep (join sep rest))
  end.

(** * csvkit.convert.geojs

    [geojson2csv] on the document [json.load] has read, with objects as
    ordered dictionaries: association lists whose keys are distinct.
    [json.dumps] and agate's CSV writer are taken as given. *)

#[local] Set Warnings "-register-all".

Inductive json : Type :=
  | JNull
  | JBool (b : bool)
  | JInt (z : Z)
  | JFloat (mantissa exponent : Z)
  | JNonFinite (literal : string)
  | JString (s : string)
  | JArray (items : list json)
  | JObject (pairs : list (string * json)).

Inductive geo_error : Type :=
  | Root_is_not_an_object
      (* TypeError: Root element is not an object. *)
  | No_top_level_type
      (* TypeError: No top-level "type" key. *)
  | Not_a_FeatureCollection (type : json)
      (* TypeError: Only GeoJSON with root FeatureCollection type is supported. *)
  | No_top_level_features
      (* TypeError: No top-level "features" key. *)
  | Not_iterable (v : json)
      (* TypeError of [for feature in features] *)
  | AttributeError (v : json) (attribute : string)
  | KeyError (key : string)
  | Bad_slice (v : json)
      (* the error of [coordinates[0:2]] on what is neither list nor string *)
  | ValueError_unpack (given : nat).
      (* not enough values to unpack (expected 2) *)

Inductive geo_result (A : Type) : Type :=
  | Done (a : A)
  | Failed (e : geo_error).
Arguments Done {A} a.
Arguments Failed {A} e.

#[global] Instance geo_ret : MRet geo_result := @Done.
#[global] Instance geo_bind : MBind geo_result := fun A B k m =>
  match m with
  | Done a => k a
  | Failed e => Failed e
  end.
#[global] Instance geo_fmap : FMap geo_result := fun A B f m =>
  match m with
  | Done a => Done (f a)
  | Failed e => Failed e
  end.

(** [d.get(key)] as an option, [key in d]. *)
Fixpoint dict_lookup (key : string) (pairs : list (string * json)) : option json :=
  match pairs with
  | [] => None
  | (k, v) :: rest => if String.eqb k key then Some v else dict_lookup key rest
  end.

(** [v == s] for a string literal [s]. *)
Definition is_str (v : json) (s : string) : bool :=
  match v with
  | JString t => String.eqb t s
  | _ => false
  end.

(** Python truth of a value. *)
Definition truth (v : json) : bool :=
  match v with
  | JNull => false
  | JBool b => b
  | JInt z => negb (z =? 0)
  | JFloat mantissa _ => negb (mantissa =? 0)
  | JNonFinite _ => true
  | JString s => negb (String.eqb s "")
  | JArray items => match items with [] => false | _ => true end
  | JObject pairs => match pairs with [] => false | _ => true end
  end.

(** The characters of a string, each as a string. *)
Definition characters (s : string) : list json :=
  (fun a => JString (String a "")) <$> list_ascii_of_string s.

(** What [for feature in features] runs over. *)
Definition iterate (v : json) : geo_result (list json) :=
  match v with
  | JArray items => Done items
  | JObject pairs => Done (JString <$> pairs.*1)
  | JString s => Done (characters s)
  | _ => Failed (Not_iterable v)
  end.

(** [v.get(key, dflt)] *)
Definition get (v : json) (key : string) (dflt : json) : geo_result json :=
  match v with
  | JObject pairs => Done (default dflt (dict_lookup key pairs))
  | _ => Failed (AttributeError v "get")
  end.

(** [v.keys()] *)
Definition keys (v : json) : geo_result (list string) :=
  match v with
  | JObject pairs => Done pairs.*1
  | _ => Failed (AttributeError v "keys")
  end.

(** [v[key]] once [v] is known to be a dictionary. *)
Definition getitem (pairs : list (string * json)) (key : string) : geo_result json :=
  match dict_lookup key pairs with
  | Some v => Done v
  | None => Failed (KeyError key)
  end.

(** [longitude, latitude = coordinates[0:2]] *)
Definition first_two (coordinates : json) : geo_result (json * json) :=
  match coordinates with
  | JArray (x :: y :: _) => Done (x, y)
  | JArray items => Failed (ValueError_unpack (length items))
  | JString s =>
      match characters s with
      | x :: y :: _ => Done (x, y)
      | cs => Failed (ValueError_unpack (length cs))
      end
  | _ => Failed (Bad_slice coordinates)
  end.

(** The loop that appends the keys not yet in [property_fields]. *)
Definition add_fields (property_fields props : list string) : list string :=
  fold_left (fun fields prop =>
               if bool_decide (prop ∈ fields) then fields else fields ++ [prop])
            props property_fields.

(** An element of [features_parsed]. *)
Record parsed_feature : Type := mkParsed {
  geoid : json;
  properties : json;
  geometry : string;
  geometry_type : json;
  longitude : json;
  latitude : json;
}.

Section GeoJSON.

Variable dumps : json -> string.
Variable csv_text : list (list json) -> string.

(** The body of the first loop: the feature parsed, and the fields known
    after it. *)
Definition parse_feature (property_fields : list string) (feature : json)
    : geo_result (parsed_feature * list string) :=
  properties ← get feature "properties" (JObject []);
  props ← keys properties;
  let property_fields := add_fields property_fields props in
  geometry ← match feature with
             | JObject pairs => getitem pairs "geometry"
             | _ => Failed (AttributeError feature "__getitem__")
             end;
  geometry_type ← (if truth geometry then get geometry "type" JNull else Done JNull);
  '(longitude, latitude) ←
    (if is_str geometry_type "Point"
     then match geometry with
          | JObject pairs =>
              match dict_lookup "coordinates" pairs with
              | Some coordinates => first_two coordinates
              | None => Done (JNull, JNull)
              end
          | _ => Done (JNull, JNull)
          end
     else Done (JNull, JNull));
  geoid ← get feature "id" JNull;
  Done (mkParsed geoid properties (dumps geometry) geometry_type longitude latitude,
        property_fields).

Fixpoint parse_features (property_fields : list string) (features : list json)
    : geo_result (list parsed_feature * list string) :=
  match features with
  | [] => Done ([], property_fields)
  | feature :: rest =>
      '(parsed, property_fields) ← parse_feature property_fields feature;
      '(features_parsed, property_fields) ← parse_features property_fields rest;
      Done (parsed :: features_parsed, property_fields)
  end.

Definition header (property_fields : list string) : list json :=
  JString <$> ("id" :: property_fields ++ ["geojson"; "type"; "longitude"; "latitude"]).

(** The value written for one property of a feature. *)
Definition property_cell (properties : json) (field : string) : json :=
  let value := match properties with
               | JObject pairs => default JNull (dict_lookup field pairs)
               | _ => JNull
               end in
  match value with
  | JObject _ => JString (dumps value)
  | _ => value
  end.

(** The body of the second loop. *)
Definition row (property_fields : list string) (f : parsed_feature) : list json :=
  geoid f :: (property_cell (properties f) <$> property_fields)
    ++ [JString (geometry f); geometry_type f; longitude f; latitude f].

(** The rows handed to the writer, the header first. *)
Definition geojson2csv_rows (js : json) : geo_result (list (list json)) :=
  match js with
  | JObject root =>
      match dict_lookup "type" root with
      | None => Failed No_top_level_type
      | Some type =>
          if is_str type "FeatureCollection" then
            match dict_lookup "features" root with
            | None => Failed No_top_level_features
            | Some features =>
                items ← iterate features;
                '(features_parsed, property_fields) ← parse_features [] items;
                Done (header property_fields :: (row property_fields <$> features_parsed))
            end
          else Failed (Not_a_FeatureCollection type)
      end
  | _ => Failed Root_is_not_an_object
  end.

Definition geojson2csv (js : json) : geo_result string :=
  csv_text <$> geojson2csv_rows js.

End GeoJSON.

(** The keys a feature contributes to the header: those of its
    [properties], none when it has no such member. *)
Definition feature_keys (feature : json) : list string :=
  match get feature "properties" (JObject []) ≫= keys with
  | Done ks => ks
  | Failed _ => []
  end.

(** The four errors raised about the root of the document. *)
Definition is_root_error (e : geo_error) : bool :=
  match e with
  | Root_is_not_an_object | No_top_level_type
  | Not_a_FeatureCollection _ | No_top_level_features => true
  | _ => false
  end.

(** The features of a document whose root is a feature collection. *)
Definition features_of (js : json) : option json :=
  match js with
  | JObject root =>
      match dict_lookup "type" root with
      | Some type =>
          if is_str type "FeatureCollection" then dict_lookup "features" root else None
      | None => None
      end
  | _ => None
  end.

(** The database accepts every DROP, CREATE and INSERT. *)
Definition never_refuses_writes (env : Env) : Prop :=
  forall history ev, is_write ev = true -> raises env history ev = false.

(** ** More sample data *)

(** A database that refuses the inserts attempted once [n] operations are
    on record. *)
Definition refuses_inserts_after (n : nat) (history : list Event) (ev : Event) : bool :=
  match ev with
  | insert_ev _ _ _ => (n <=? length history)%nat
  | _ => false
  end.

(** A database holding one table of three columns and two rows. *)
Definition holding_env : Env :=
  mkEnv (fun _ _ => false)
    (fun url => hd "" (split ":" url))
    (fun url => hd "" (split "+" (hd "" (split ":" url))))
    (fun _ _ _ => [ mkReflected "name" VARCHAR py_str false;
                    mkReflected "height" FLOAT py_float false;
                    mkReflected "elapsed" POSTGRES_INTERVAL (py_other "Interval") false ])
    (fun _ _ => [ [VStr "ada"; VDecimal 17 (-1); VNone];
                  [VStr "grace"; VDecimal 16 (-1); VNone] ])
    (fun _ _ => ["name"; "height"; "elapsed"])
    (fun _ names => (fun _ => Instance_of Text) <$> names)
    (fun _ _ => 0) (fun _ _ => 0) (fun _ _ => false).

Definition sample_dumps (v : json) : string :=
  match v with
  | JNull => "null"
  | JObject [] => "{}"
  | _ => "{...}"
  end.

Definition sample_point : json :=
  JObject [ ("type", JString "Feature"); ("id", JInt 7);
            ("properties", JObject [("name", JString "well"); ("depth", JInt 30)]);
            ("geometry", JObject [ ("type", JString "Point");
                                   ("coordinates", JArray [JFloat 25 (-1); JInt 48; JInt 900]) ]) ].

Definition sample_shapeless : json :=
  JObject [ ("properties", JObject [("name", JString "lost"); ("tags", JObject [])]);
            ("geometry", JNull) ].

Definition sample_collection (features : list json) : json :=
  JObject [ ("type", JString "FeatureCollection"); ("features", JArray features) ].

Definition chunked (K : Z) : to_sql_kwargs :=
  mkKwargs true true false true ["OR IGNORE"] None true ["name"] (Some K) 1 1.

Definition empty_sql_table : SqlTable := mkSqlTable "people" None [] [].

Definition bad_properties : json :=
  JObject [ ("properties", JNull); ("geometry", JNull) ].

(** * Properties *)

(** ** Reasoning about the monad *)

Ltac unfold_monad :=
  unfold mbind, M_bind, mret, M_ret, bind, ret, raise, gets, modify, when in *.

Lemma bind_Return {A B} (m : M A) (k : A -> M B) w a w1 :
  m w = (Return a, w1) -> (m ≫= k) w = k a w1.
Proof. intros H. unfold_monad. by rewrite H. Qed.

Lemma bind_Raise {A B} (m : M A) (k : A -> M B) w e w1 :
  m w = (Raise e, w1) -> (m ≫= k) w = (Raise e, w1).
Proof. intros H. unfold_monad. by rewrite H. Qed.

(** ** Type inference in from_sql *)

Section Inference.

Lemma infer_column_kind c w :
  match tabular_kind (py_type_of c) with
  | Some k => exists c', infer_column c w = (Return (Instance_of k, c'), w)
  | None =>
      infer_column c w = (Raise (Unsupported_sqlalchemy_column_type (rc_type c)), w)
  end.
Proof.
  unfold infer_column.
  destruct (py_type_of c); simpl; eauto.
Qed.

Lemma infer_column_supported c w :
  supported_column c ->
  exists k c', tabular_kind (py_type_of c) = Some k
               /\ infer_column c w = (Return (Instance_of k, c'), w).
Proof.
  intros [k Hk]. pose proof (infer_column_kind c w) as H.
  rewrite Hk in H. destruct H as [c' H]. eauto.
Qed.

Lemma infer_column_unsupported c w :
  ~ supported_column c ->
  infer_column c w = (Raise (Unsupported_sqlalchemy_column_type (rc_type c)), w).
Proof.
  intros Hn. pose proof (infer_column_kind c w) as H.
  destruct (tabular_kind (py_type_of c)) eqn:E; [|done].
  exfalso. apply Hn. unfold supported_column. rewrite E. eauto.
Qed.

Lemma infer_columns_supported cols w :
  Forall supported_column cols ->
  exists r, infer_columns cols w = (Return r, w).
Proof.
  induction 1 as [|c cols Hc _ IH]; simpl; [by eexists|].
  destruct (infer_column_supported c w Hc) as (k & c' & Hk & Hrun).
  destruct IH as ([[names types] cols'] & Hrest).
  eexists. erewrite bind_Return by exact Hrun. simpl.
  erewrite bind_Return by exact Hrest. reflexivity.
Qed.

Lemma infer_columns_unsupported pre c post w :
  Forall supported_column pre -> ~ supported_column c ->
  infer_columns (pre ++ c :: post) w
  = (Raise (Unsupported_sqlalchemy_column_type (rc_type c)), w).
Proof.
  intros Hpre Hc. induction Hpre as [|p pre Hp _ IH]; simpl.
  - erewrite bind_Raise; [reflexivity|]. by apply infer_column_unsupported.
  - destruct (infer_column_supported p w Hp) as (k & p' & _ & Hrun).
    erewrite bind_Return by exact Hrun. simpl.
    erewrite bind_Raise; [reflexivity|]. exact IH.
Qed.

End Inference.

(** ** Schema synthesis *)

Lemma SQL_TYPE_MAP_inv : type_map_inv SQL_TYPE_MAP.
Proof. by exists None, None, None, None. Qed.

Lemma dialect_type_map_inv dialect : type_map_inv (dialect_type_map dialect).
Proof. unfold type_map_inv, dialect_type_map. simpl. eauto 10. Qed.

Lemma set_dialect_types_run dialect w :
  type_map_inv (SQL_TYPE_MAP_now w) ->
  set_dialect_types dialect w = (Return tt, with_type_map (dialect_type_map dialect) w).
Proof.
  intros (b & n & dt & td & Hm). destruct w as [m ? ? ? ? ?]. simpl in Hm. subst m.
  reflexivity.
Qed.

Lemma first_isinstance_dialect_type_map dialect k :
  first_isinstance (Instance_of k) (dialect_type_map dialect) = Some (type_for dialect k).
Proof. by destruct k. Qed.

Lemma first_isinstance_Custom n m : first_isinstance (Custom n) m = None.
Proof. induction m as [|[k v] m IH]; simpl; done. Qed.

Lemma make_sql_column_pure cname dt kws ckw ty w r w1 :
  make_sql_column cname dt kws ckw ty w = (r, w1) -> w1 = w.
Proof.
  unfold make_sql_column. unfold_monad.
  destruct ty; [|destruct (first_isinstance _ _)]; congruence.
Qed.

(** Generic facts about the loop over the columns. *)
Lemma for_columns_lookup items body w cols w' :
  (forall x v r v1, body x v = (r, v1) -> v1 = v) ->
  for_columns items body w = (Return cols, w') ->
  w' = w /\ length cols = length items
  /\ forall i item, items !! i = Some item ->
       exists col, cols !! i = Some col /\ body item w = (Return col, w).
Proof.
  intros Hpure. revert cols.
  induction items as [|x items IH]; intros cols; simpl.
  - unfold_monad. intros [= <- <-]. split; [done|]. split; [done|]. intros i item Hi. done.
  - unfold_monad.
    destruct (body x w) as [[c|e] w1] eqn:Hx; [|discriminate].
    pose proof (Hpure _ _ _ _ Hx) as ->.
    destruct (for_columns items body w) as [[cs|e] w2] eqn:Hrest; [|discriminate].
    intros [= <- <-]. destruct (IH cs eq_refl) as (-> & Hlen & Hlook).
    split; [done|]. split; [simpl; by rewrite Hlen|].
    intros [|i] item Hi; simpl in *.
    + injection Hi as <-. eauto.
    + eauto.
Qed.

Lemma for_columns_Return items body w f :
  (forall x, x ∈ items -> body x w = (Return (f x), w)) ->
  for_columns items body w = (Return (f <$> items), w).
Proof.
  induction items as [|x items IH]; intros H; simpl; [done|].
  erewrite bind_Return by (apply H; left). simpl.
  erewrite bind_Return by (apply IH; intros; apply H; by right). done.
Qed.

Lemma for_columns_Raise pre x post body w f e :
  (forall y, y ∈ pre -> body y w = (Return (f y), w)) ->
  body x w = (Raise e, w) ->
  for_columns (pre ++ x :: post) body w = (Raise e, w).
Proof.
  intros Hpre Hx. induction pre as [|y pre IH]; simpl.
  - by erewrite bind_Raise.
  - erewrite bind_Return by (apply Hpre; left). simpl.
    erewrite bind_Raise; [done|]. apply IH. intros; apply Hpre; by right.
Qed.

Section Synthesis.

Variable env : Env.

Lemma make_table_column_pure table dialect cons mcl clm item w r w1 :
  make_table_column env table dialect cons mcl clm item w = (r, w1) -> w1 = w.
Proof.
  destruct item as [cname dt]. unfold make_table_column.
  destruct cons.
  - destruct (text_rule _ _ _ _ _ _ _), (number_rule _ _ _ _ _).
    apply make_sql_column_pure.
  - apply make_sql_column_pure.
Qed.

Lemma make_table_column_instance table dialect cons mcl clm cname k w :
  SQL_TYPE_MAP_now w = dialect_type_map dialect ->
  make_table_column env table dialect cons mcl clm (cname, Instance_of k) w
  = (Return (table_column env table dialect cons mcl clm cname k), w).
Proof.
  intros Hm. unfold make_table_column, table_column.
  destruct cons.
  - destruct (text_rule _ _ _ _ _ _ _) as [override len].
    destruct (number_rule _ _ _ _ _) as [precision scale].
    unfold make_sql_column. unfold_monad. rewrite Hm.
    rewrite first_isinstance_dialect_type_map.
    by destruct override.
  - unfold make_sql_column. unfold_monad. rewrite Hm.
    by rewrite first_isinstance_dialect_type_map.
Qed.

Lemma make_table_column_Custom table dialect cons mcl clm cname n w :
  make_table_column env table dialect cons mcl clm (cname, Custom n) w
  = (Raise (Unsupported_column_type (Custom n)), w).
Proof.
  unfold make_table_column, text_rule, number_rule. simpl.
  destruct cons; unfold make_sql_column; unfold_monad;
    by rewrite first_isinstance_Custom.
Qed.

(** What a successful [make_sql_table] says about each column. *)
Lemma make_sql_table_columns table tn dialect sch cons uc mcl clm w t w' :
  type_map_inv (SQL_TYPE_MAP_now w) ->
  make_sql_table env table tn dialect sch cons uc mcl clm w = (Return t, w') ->
  w' = with_type_map (dialect_type_map dialect) w
  /\ forall i cname dt, columns_items table !! i = Some (cname, dt) ->
       exists k, dt = Instance_of k
         /\ sql_table_columns t !! i = Some (table_column env table dialect cons mcl clm cname k).
Proof.
  intros Hinv. unfold make_sql_table.
  erewrite bind_Return by (by apply set_dialect_types_run).
  unfold build_sql_table. unfold_monad.
  set (w1 := with_type_map (dialect_type_map dialect) w).
  destruct (for_columns _ _ w1) as [[cols|e] w2] eqn:Hloop; [|discriminate].
  intros [= <- <-].
  apply for_columns_lookup in Hloop as (-> & _ & Hlook);
    [|intros ? ? ? ?; apply make_table_column_pure].
  split; [done|]. intros i cname dt Hi.
  destruct (Hlook _ _ Hi) as (col & Hcol & Hrun). simpl.
  destruct dt as [k|n].
  - exists k. split; [done|].
    rewrite make_table_column_instance in Hrun by done. congruence.
  - rewrite make_table_column_Custom in Hrun. discriminate.
Qed.

End Synthesis.


(** ** Properties of type inference *)

Lemma find_split {A} (p : A -> bool) l x :
  List.find p l = Some x ->
  exists pre post, l = pre ++ x :: post /\ Forall (fun y => p y = false) pre /\ p x = true.
Proof.
  induction l as [|y l IH]; simpl; [done|].
  destruct (p y) eqn:Hy.
  - intros [= ->]. exists [], l. by repeat split.
  - intros H. destruct (IH H) as (pre & post & -> & Hpre & Hx).
    exists (y :: pre), post. repeat split; [|done]. by constructor.
Qed.

Lemma find_none_Forall {A} (p : A -> bool) l :
  List.find p l = None -> Forall (fun y => p y = false) l.
Proof.
  induction l as [|y l IH]; simpl; [by constructor|].
  destruct (p y) eqn:Hy; [done|]. intros H. constructor; auto.
Qed.

Lemma supported_column_decide c :
  bool_decide (tabular_kind (py_type_of c) = None) = false <-> supported_column c.
Proof.
  unfold supported_column. rewrite bool_decide_eq_false.
  destruct (tabular_kind (py_type_of c)); split; intros H; try done; eauto.
Qed.

(** C7.  In the inference loop of [from_sql], a reflected column whose type
    class is one of the interval classes of [INTERVAL_MAP] becomes a
    TimeDelta column whatever [python_type] its type reports; and in every
    successful inference the type at the position of such a column is
    TimeDelta. *)
Theorem interval_columns_are_TimeDelta (c : ReflectedColumn) (w : World) :
  in_INTERVAL_MAP_values (rc_type c) = true ->
  infer_column c w = (Return (Instance_of TimeDelta, c), w)
  /\ forall cols i names types cols' w',
       cols !! i = Some c ->
       infer_columns cols w = (Return (names, types, cols'), w') ->
       types !! i = Some (Instance_of TimeDelta).
Proof.
  intros Hint.
  assert (Hrun : forall v, infer_column c v = (Return (Instance_of TimeDelta, c), v)).
  { intros v. unfold infer_column, py_type_of. by rewrite Hint. }
  split; [apply Hrun|].
  intros cols. induction cols as [|d cols IH]; intros i names types cols' w' Hi; [done|].
  simpl. unfold_monad.
  destruct (infer_column d w) as [[[dt d']|e] w1] eqn:Hd; [|discriminate].
  assert (w1 = w) as ->.
  { pose proof (infer_column_kind d w) as Hk. rewrite Hd in Hk.
    destruct (tabular_kind _); [destruct Hk as [? Hk]|]; congruence. }
  destruct (infer_columns cols w) as [[[[ns ts] cs]|e] w2] eqn:Hrest; [|discriminate].
  intros [= <- <- <- <-].
  destruct i as [|i]; simpl in *.
  - injection Hi as ->. rewrite Hrun in Hd. congruence.
  - eapply IH; eauto.
Qed.

Lemma interval_columns_are_TimeDelta_witness :
  let c := mkReflected "elapsed" POSTGRES_INTERVAL (py_other "psycopg2.Interval") false in
  infer_column c initial_world = (Return (Instance_of TimeDelta, c), initial_world).
Proof.
  intros c.
  exact (proj1 (interval_columns_are_TimeDelta c initial_world eq_refl)).
Defined.

(** ** Properties of schema synthesis *)

Lemma has_type_map_entry_Instance k : has_type_map_entry (Instance_of k) = true.
Proof. by destruct k. Qed.

Lemma has_type_map_entry_Custom n : has_type_map_entry (Custom n) = false.
Proof. done. Qed.

Section SynthesisProperties.

Variable env : Env.

Lemma make_sql_table_Return table tn dialect sch cons uc mcl clm w :
  type_map_inv (SQL_TYPE_MAP_now w) ->
  first_without_entry table = None ->
  exists t, make_sql_table env table tn dialect sch cons uc mcl clm w
            = (Return t, with_type_map (dialect_type_map dialect) w).
Proof.
  intros Hinv Hnone. unfold make_sql_table.
  erewrite bind_Return by (by apply set_dialect_types_run).
  unfold build_sql_table.
  set (w1 := with_type_map (dialect_type_map dialect) w).
  set (f := fun item : string * DataType =>
              match item.2 with
              | Instance_of k => table_column env table dialect cons mcl clm item.1 k
              | Custom _ => mkColumn item.1 (mkType TEXT None None None) None
              end).
  eexists. erewrite bind_Return; [reflexivity|].
  apply (for_columns_Return _ _ _ f).
  intros [cname dt] Hin.
  apply find_none_Forall in Hnone. rewrite Forall_forall in Hnone.
  specialize (Hnone _ Hin). simpl in Hnone.
  destruct dt as [k|n]; [|done].
  by apply make_table_column_instance.
Qed.

Lemma make_sql_table_Raise table tn dialect sch cons uc mcl clm w cname dt :
  type_map_inv (SQL_TYPE_MAP_now w) ->
  first_without_entry table = Some (cname, dt) ->
  make_sql_table env table tn dialect sch cons uc mcl clm w
  = (Raise (Unsupported_column_type dt), with_type_map (dialect_type_map dialect) w).
Proof.
  intros Hinv Hsome. unfold make_sql_table.
  erewrite bind_Return by (by apply set_dialect_types_run).
  unfold build_sql_table.
  set (w1 := with_type_map (dialect_type_map dialect) w).
  set (f := fun item : string * DataType =>
              match item.2 with
              | Instance_of k => table_column env table dialect cons mcl clm item.1 k
              | Custom _ => mkColumn item.1 (mkType TEXT None None None) None
              end).
  apply find_split in Hsome as (pre & post & Hitems & Hpre & Hdt).
  rewrite Hitems. erewrite bind_Raise; [reflexivity|].
  apply (for_columns_Raise _ _ _ _ _ f).
  - intros [cn d] Hin. rewrite Forall_forall in Hpre.
    specialize (Hpre _ Hin). simpl in Hpre.
    destruct d as [k|n]; [|done]. by apply make_table_column_instance.
  - simpl in Hdt. destruct dt as [k|n].
    + by rewrite has_type_map_entry_Instance in Hdt.
    + apply make_table_column_Custom.
Qed.


(** C4.  With constraints enabled on mysql or ingres, a Text column's
    length is the maximum observed length times [col_len_multiplier]; above
    the dialect's budget (21844 on mysql, 10666 on ingres) the column is an
    unbounded TEXT, otherwise a VARCHAR whose length is the larger of that
    length and [min_col_len]. *)
Theorem text_column_length_rule
    (table : AgateTable) (table_name dialect : string) (db_schema : option string)
    (unique_constraint : list string) (min_col_len col_len_multiplier : Z)
    (w w' : World) (t : SqlTable) (i : nat) (column_name : string) :
  type_map_inv (SQL_TYPE_MAP_now w) ->
  dialect = "mysql" \/ dialect = "ingres" ->
  columns_items table !! i = Some (column_name, Instance_of Text) ->
  make_sql_table env table table_name (Some dialect) db_schema true unique_constraint
                 min_col_len col_len_multiplier w = (Return t, w') ->
  let length := MaxLength env table column_name * col_len_multiplier in
  type_ <$> sql_table_columns t !! i
  = Some (if bool_decide (text_budget dialect < length)
          then mkType TEXT None None None
          else mkType VARCHAR (Some (Z.max length min_col_len)) None None).
Proof.
  intros Hinv Hd Hi Hrun length.
  destruct (make_sql_table_columns env _ _ _ _ _ _ _ _ _ _ _ Hinv Hrun) as [_ Hcols].
  destruct (Hcols _ _ _ Hi) as (k & [= <-] & ->). simpl.
  f_equal. unfold table_column, text_rule, number_rule. fold length.
  assert (Hmax : (if min_col_len <=? length then length else min_col_len)
                 = Z.max length min_col_len).
  { destruct (Z.leb_spec min_col_len length); lia. }
  destruct Hd as [-> | ->]; simpl; rewrite Hmax.
  - change (text_budget "mysql") with 21844.
    destruct (Z.ltb_spec 21844 length);
      [rewrite bool_decide_eq_true_2 by done | rewrite bool_decide_eq_false_2 by lia];
      reflexivity.
  - change (text_budget "ingres") with 10666.
    destruct (Z.ltb_spec 10666 length);
      [rewrite bool_decide_eq_true_2 by done | rewrite bool_decide_eq_false_2 by lia];
      reflexivity.
Qed.

(** C6.  With constraints enabled, a synthesized column that is not a
    DateTime column carries [nullable] equal to what the table reports for
    [HasNulls], so it is nullable exactly when the column has a null; a
    DateTime column carries no [nullable] argument and stays nullable. *)
Theorem nullable_follows_HasNulls
    (table : AgateTable) (table_name : string) (dialect db_schema : option string)
    (unique_constraint : list string) (min_col_len col_len_multiplier : Z)
    (w w' : World) (t : SqlTable) (i : nat) (column_name : string) (data_type : DataType) :
  type_map_inv (SQL_TYPE_MAP_now w) ->
  columns_items table !! i = Some (column_name, data_type) ->
  make_sql_table env table table_name dialect db_schema true unique_constraint
                 min_col_len col_len_multiplier w = (Return t, w') ->
  exists column,
    sql_table_columns t !! i = Some column
    /\ if isinstance data_type DateTime
       then nullable column = None /\ is_nullable column = true
       else nullable column = Some (HasNulls env table column_name)
            /\ (is_nullable column = true <-> HasNulls env table column_name = true).
Proof.
  intros Hinv Hi Hrun.
  destruct (make_sql_table_columns env _ _ _ _ _ _ _ _ _ _ _ Hinv Hrun) as [_ Hcols].
  destruct (Hcols _ _ _ Hi) as (k & -> & Hcol).
  eexists. split; [exact Hcol|].
  unfold table_column.
  destruct (text_rule _ _ _ _ _ _ _) as [override len].
  destruct (number_rule _ _ _ _ _) as [precision scale].
  unfold nullable_rule, is_nullable.
  destruct (isinstance (Instance_of k) DateTime); simpl; done.
Qed.

Lemma for_columns_agree items body w1 w2 :
  (forall x v r v1, body x v = (r, v1) -> v1 = v) ->
  (forall x, (body x w1).1 = (body x w2).1) ->
  (for_columns items body w1).1 = (for_columns items body w2).1.
Proof.
  intros Hpure Hagree. induction items as [|x items IH]; simpl; [done|].
  unfold_monad. specialize (Hagree x).
  destruct (body x w1) as [r1 v1] eqn:H1. destruct (body x w2) as [r2 v2] eqn:H2.
  apply Hpure in H1 as ->. apply Hpure in H2 as ->. simpl in Hagree. subst r2.
  destruct r1 as [c|e]; [|done].
  destruct (for_columns items body w1) as [q1 u1].
  destruct (for_columns items body w2) as [q2 u2].
  simpl in IH. subst q2. by destruct q1.
Qed.

Lemma for_columns_pure items body w r w' :
  (forall x v q v1, body x v = (q, v1) -> v1 = v) ->
  for_columns items body w = (r, w') -> w' = w.
Proof.
  intros Hpure. revert r w'.
  induction items as [|x items IH]; intros r w'; simpl; unfold_monad; [congruence|].
  destruct (body x w) as [[c|e] v] eqn:Hx; apply Hpure in Hx as ->; [|congruence].
  destruct (for_columns items body w) as [[cs|e] u] eqn:Hrest;
    specialize (IH _ _ eq_refl) as ->; congruence.
Qed.

Lemma build_sql_table_pure table tn dialect sch cons uc mcl clm w r w' :
  build_sql_table env table tn dialect sch cons uc mcl clm w = (r, w') -> w' = w.
Proof.
  unfold build_sql_table. unfold_monad.
  destruct (for_columns _ _ w) as [[cols|e] u] eqn:Hloop;
    apply for_columns_pure in Hloop as ->;
    try (intros ? ? ? ?; apply make_table_column_pure); congruence.
Qed.

Lemma build_sql_table_agree table tn dialect sch cons uc mcl clm w1 w2 :
  SQL_TYPE_MAP_now w1 = SQL_TYPE_MAP_now w2 ->
  (build_sql_table env table tn dialect sch cons uc mcl clm w1).1
  = (build_sql_table env table tn dialect sch cons uc mcl clm w2).1.
Proof.
  intros Hm. unfold build_sql_table. unfold_monad.
  pose proof (for_columns_agree (columns_items table)
    (make_table_column env table dialect cons mcl clm) w1 w2) as Hloop.
  destruct (for_columns _ _ w1) as [q1 u1]. destruct (for_columns _ _ w2) as [q2 u2].
  simpl in Hloop. rewrite Hloop.
  - by destruct q2.
  - intros ? ? ? ?. apply make_table_column_pure.
  - intros [cname dt]. unfold make_table_column.
    destruct cons;
      [destruct (text_rule _ _ _ _ _ _ _), (number_rule _ _ _ _ _)|];
      unfold make_sql_column; unfold_monad; rewrite Hm;
      repeat match goal with |- context [match ?o with Some _ => _ | None => _ end] =>
               destruct o end; done.
Qed.


End SynthesisProperties.


Lemma text_column_length_rule_witness :
  let r := make_sql_table sample_env sample_table "people" (Some "mysql") None true [] 8 2
             initial_world in
  exists t, r.1 = Return t
    /\ type_ <$> sql_table_columns t !! 0%nat = Some (mkType VARCHAR (Some 12) None None).
Proof.
  eexists. split; [reflexivity|].
  exact (text_column_length_rule sample_env sample_table "people" "mysql" None [] 8 2
           initial_world _ _ 0%nat "name" SQL_TYPE_MAP_inv (or_introl eq_refl)
           eq_refl eq_refl).
Defined.

(** ** Resources: what a call opens, keeps and releases *)

Lemma same_resources_refl P w : same_resources P w w.
Proof.
  repeat split. exists []. split; [by rewrite app_nil_r|constructor].
Qed.

Lemma same_resources_trans P w1 w2 w3 :
  same_resources P w1 w2 -> same_resources P w2 w3 -> same_resources P w1 w3.
Proof.
  intros (He & Hc & Hcl & Hd & evs & Hl & Hev) (He' & Hc' & Hcl' & Hd' & evs' & Hl' & Hev').
  repeat split; try congruence.
  exists (evs ++ evs'). split; [by rewrite Hl', Hl, app_assoc|by apply Forall_app].
Qed.

Lemma same_resources_mono (P Q : Event -> bool) w w' :
  (forall ev, P ev = true -> Q ev = true) ->
  same_resources P w w' -> same_resources Q w w'.
Proof.
  intros HPQ (He & Hc & Hcl & Hd & evs & Hl & Hev).
  repeat split; try done. exists evs. split; [done|].
  eapply Forall_impl; [exact Hev|]. auto.
Qed.

Lemma quiet_ret {A} P (a : A) : quiet P (mret a).
Proof. intros w. apply same_resources_refl. Qed.

Lemma quiet_raise {A} P e : quiet P (raise e : M A).
Proof. intros w. apply same_resources_refl. Qed.

Lemma quiet_gets {A} P (f : World -> A) : quiet P (gets f).
Proof. intros w. apply same_resources_refl. Qed.

Lemma quiet_bind {A B} P (m : M A) (k : A -> M B) :
  quiet P m -> (forall a, quiet P (k a)) -> quiet P (m ≫= k).
Proof.
  intros Hm Hk w. specialize (Hm w). unfold_monad.
  destruct (m w) as [[a|e] w1]; simpl in *; [|done].
  eapply same_resources_trans; [exact Hm|apply Hk].
Qed.

Lemma quiet_mono {A} (P Q : Event -> bool) (m : M A) :
  (forall ev, P ev = true -> Q ev = true) -> quiet P m -> quiet Q m.
Proof. intros HPQ Hm w. eapply same_resources_mono; eauto. Qed.

Lemma quiet_when P b m : quiet P m -> quiet P (when b m).
Proof. intros Hm. destruct b; [done|apply quiet_ret]. Qed.

Lemma quiet_try_finally {A} P (body : M A) fin :
  quiet P body -> quiet P fin -> quiet P (try_finally body fin).
Proof.
  intros Hb Hf w. specialize (Hb w). unfold try_finally.
  destruct (body w) as [r w1]. specialize (Hf w1).
  destruct (fin w1) as [[u|e] w2]; simpl in *;
    eapply same_resources_trans; eauto.
Qed.

Lemma quiet_for_each {A} P (xs : list A) body :
  (forall x, quiet P (body x)) -> quiet P (for_each xs body).
Proof.
  intros Hb. induction xs as [|x xs IH]; simpl; [apply quiet_ret|].
  apply quiet_bind; auto.
Qed.

Lemma quiet_for_columns P items body :
  (forall x, quiet P (body x)) -> quiet P (for_columns items body).
Proof.
  intros Hb. induction items as [|x items IH]; simpl; [apply quiet_ret|].
  apply quiet_bind; [auto|]. intros c.
  apply quiet_bind; [auto|]. intros cs. apply quiet_ret.
Qed.

Lemma quiet_set_type_map P f :
  quiet P (modify (fun w => with_type_map (f w) w)).
Proof.
  intros w. simpl. repeat split. exists []. split; [by rewrite app_nil_r|constructor].
Qed.

Section Resources.

Variable env : Env.

Lemma quiet_attempt (P : Event -> bool) ev : P ev = true -> quiet P (attempt env ev).
Proof.
  intros HP w. unfold attempt.
  destruct (raises env (log w) ev); simpl;
    (repeat split; exists [ev]; split; [done|by constructor]).
Qed.

Lemma quiet_on_connection (P : Event -> bool) c ev :
  P ev = true -> quiet P (on_connection env c ev).
Proof.
  intros HP w. unfold on_connection. case_bool_decide.
  - apply same_resources_refl.
  - by apply quiet_attempt.
Qed.

Lemma quiet_execute (P : Event -> bool) c ev : P ev = true -> quiet P (execute env c ev).
Proof.
  intros HP. unfold execute.
  apply quiet_bind; [apply quiet_gets|]. intros h.
  apply quiet_bind; [by apply quiet_on_connection|]. intros _. apply quiet_ret.
Qed.

Lemma quiet_agate_Table (P : Event -> bool) cur names types :
  P (read_rows_ev (cursor_connection cur)) = true ->
  quiet P (agate_Table env cur names types).
Proof.
  intros HP. unfold agate_Table.
  apply quiet_bind; [by apply quiet_on_connection|]. intros _. apply quiet_ret.
Qed.

Lemma quiet_infer_columns P cols : quiet P (infer_columns cols).
Proof.
  induction cols as [|c cols IH]; simpl; [apply quiet_ret|].
  apply quiet_bind.
  - intros w. pose proof (infer_column_kind c w) as H.
    destruct (tabular_kind _); [destruct H as [c' H]|]; rewrite H;
      apply same_resources_refl.
  - intros [dt c']. apply quiet_bind; [done|]. intros [[names types] cols'].
    apply quiet_ret.
Qed.

Lemma quiet_make_sql_table P table tn dialect sch cons uc mcl clm :
  quiet P (make_sql_table env table tn dialect sch cons uc mcl clm).
Proof.
  unfold make_sql_table. apply quiet_bind.
  - unfold set_dialect_types, SQL_TYPE_MAP_setitem.
    repeat (apply quiet_bind; [apply quiet_set_type_map|intros _]).
    apply quiet_set_type_map.
  - intros _ w.
    destruct (build_sql_table _ _ _ _ _ _ _ _ _ w) as [r u] eqn:Hb.
    apply build_sql_table_pure in Hb as ->. apply same_resources_refl.
Qed.

Lemma quiet_insert_rows self c t prefixes chunk_size :
  quiet is_write (insert_rows env self c t prefixes chunk_size).
Proof.
  unfold insert_rows. destruct chunk_size as [k|].
  - destruct (k =? 0); [apply quiet_raise|].
    apply quiet_for_each. intros index. by apply quiet_on_connection.
  - by apply quiet_on_connection.
Qed.

(** With a connection passed in, the whole of [to_sql] only writes. *)
Lemma quiet_to_sql_Existing self c tn kw :
  quiet is_write (to_sql env self (Existing c) tn kw).
Proof.
  unfold to_sql, get_engine_and_connection.
  intros w. unfold mbind at 1, M_bind at 1, mret at 1, M_ret at 1, bind at 1, ret at 1.
  revert w. change (quiet is_write ?m) with (quiet is_write m).
  apply quiet_bind; [apply quiet_make_sql_table|]. intros t.
  apply quiet_bind.
  { apply quiet_when. apply quiet_bind.
    - apply quiet_when. by apply quiet_on_connection.
    - intros _. by apply quiet_on_connection. }
  intros _. apply quiet_bind; [apply quiet_when, quiet_insert_rows|]. intros _.
  apply quiet_try_finally; apply quiet_ret.
Qed.

Lemma to_sql_shape self arg tn kw w :
  to_sql env self arg tn kw w
  = ('(eng, c) ← get_engine_and_connection env arg;
     t ← to_sql_work env self c tn kw;
     try_finally (mret t) (release env eng c)) w.
Proof.
  unfold to_sql, to_sql_work. unfold_monad.
  destruct (get_engine_and_connection env arg w) as [[[eng c]|e] w1]; [|done].
  destruct (make_sql_table _ _ _ _ _ _ _ _ _ w1) as [[t|e] w2]; [|done].
  destruct (create kw); simpl.
  - destruct (overwrite kw); simpl.
    + destruct (on_connection env c (drop_ev c t true) w2) as [[[]|e] w3]; [|done].
      destruct (on_connection env c (create_ev c t _) w3) as [[[]|e] w4]; [|done].
      destruct (do_insert kw); simpl; [|done].
      by destruct (insert_rows _ _ _ _ _ _ w4) as [[[]|e] w5].
    + destruct (on_connection env c (create_ev c t _) w2) as [[[]|e] w4]; [|done].
      destruct (do_insert kw); simpl; [|done].
      by destruct (insert_rows _ _ _ _ _ _ w4) as [[[]|e] w5].
  - destruct (do_insert kw); simpl; [|done].
    by destruct (insert_rows _ _ _ _ _ _ w2) as [[[]|e] w5].
Qed.

Lemma from_sql_shape arg tn w :
  from_sql env arg tn w
  = ('(eng, c) ← get_engine_and_connection env arg;
     '(rows, names, types) ← from_sql_work env c tn;
     try_finally (agate_Table env rows names (Some types)) (release env eng c)) w.
Proof.
  unfold from_sql, from_sql_work. unfold_monad.
  destruct (get_engine_and_connection env arg w) as [[[eng c]|e] w1]; [|done].
  destruct (on_connection env c _ w1) as [[[]|e] w2]; [|done].
  destruct (infer_columns _ w2) as [[[[names types] cols]|e] w3]; [|done].
  by destruct (execute env c _ w3) as [[cur|e] w4].
Qed.

Lemma quiet_to_sql_work self c tn kw : quiet is_write (to_sql_work env self c tn kw).
Proof.
  unfold to_sql_work.
  apply quiet_bind; [apply quiet_make_sql_table|]. intros t.
  apply quiet_bind.
  { apply quiet_when. apply quiet_bind.
    - apply quiet_when. by apply quiet_on_connection.
    - intros _. by apply quiet_on_connection. }
  intros _. apply quiet_bind; [apply quiet_when, quiet_insert_rows|]. intros _.
  apply quiet_ret.
Qed.

Lemma quiet_from_sql_work c tn : quiet is_read (from_sql_work env c tn).
Proof.
  unfold from_sql_work.
  apply quiet_bind; [apply quiet_gets|]. intros h.
  apply quiet_bind; [by apply quiet_on_connection|]. intros _.
  apply quiet_bind; [apply quiet_infer_columns|]. intros [[names types] cols].
  apply quiet_bind; [by apply quiet_execute|]. intros cur. apply quiet_ret.
Qed.

Lemma quiet_from_sql_Existing c tn : quiet is_read (from_sql env (Existing c) tn).
Proof.
  intros w. rewrite from_sql_shape. revert w.
  change (quiet is_read
    ('(rows, names, types) ← from_sql_work env c tn;
     try_finally (agate_Table env rows names (Some types)) (release env None c))).
  apply quiet_bind; [apply quiet_from_sql_work|]. intros [[cur names] types].
  apply quiet_try_finally; [by apply quiet_agate_Table|apply quiet_ret].
Qed.

(** C9.  A call of [from_sql] or [to_sql] that is given a live connection
    opens nothing, closes no connection and disposes no engine: the sets of
    closed connections and of disposed engines are what they were, and no
    close or dispose is among the operations it attempts.  A connection
    that was open when passed in is therefore open afterwards, however the
    call ends. *)
Theorem supplied_connection_is_never_released
    (self : AgateTable) (c : Connection) (table_name : string)
    (kw : to_sql_kwargs) (w : World) :
  same_resources not_release w (from_sql env (Existing c) table_name w).2
  /\ same_resources not_release w (to_sql env self (Existing c) table_name kw w).2
  /\ (connection_id c ∉ closed w ->
      (connection_id c ∉ closed (from_sql env (Existing c) table_name w).2)
      /\ (connection_id c ∉ closed (to_sql env self (Existing c) table_name kw w).2)).
Proof.
  assert (Hr : same_resources not_release w (from_sql env (Existing c) table_name w).2).
  { eapply same_resources_mono; [|apply quiet_from_sql_Existing]. by intros []. }
  assert (Hw : same_resources not_release w (to_sql env self (Existing c) table_name kw w).2).
  { eapply same_resources_mono; [|apply quiet_to_sql_Existing]. by intros []. }
  split; [done|]. split; [done|]. intros Hopen.
  destruct Hr as (_ & _ & -> & _). destruct Hw as (_ & _ & -> & _). done.
Qed.

(** *** The resolver *)

(** Opening an engine and a connection: either opening raises, or both
    exist afterwards and nothing else has changed. *)
Lemma open_engine_and_connection {A} url fast (k : Engine -> Connection -> M A) w :
  (eng ← create_engine env url fast; c ← connect env eng; k eng c) w
  = if raises env (log w) (create_engine_ev (new_engine env url fast w))
    then (Raise (DatabaseError (create_engine_ev (new_engine env url fast w))),
          with_log (log w ++ [create_engine_ev (new_engine env url fast w)]) w)
    else if raises env (log w ++ [create_engine_ev (new_engine env url fast w)])
                   (connect_ev (new_connection env url fast w))
    then (Raise (DatabaseError (connect_ev (new_connection env url fast w))),
          with_log (log (after_opening env url fast w))
                   (add_engine (new_engine env url fast w) w))
    else k (new_engine env url fast w) (new_connection env url fast w)
           (after_opening env url fast w).
Proof.
  unfold create_engine, connect, attempt. unfold_monad. simpl.
  fold (owned_engine w). fold (new_engine env url fast w).
  destruct (raises env (log w) _); [done|]. simpl.
  fold (owned_connection w). fold (new_connection env url fast w).
  destruct (raises env (log w ++ _) _); simpl.
  - unfold with_log, add_engine, after_opening. simpl. by rewrite <- app_assoc.
  - unfold after_opening, add_connection, add_engine. simpl. by rewrite <- app_assoc.
Qed.

Lemma resolve_Absent w :
  opens_cleanly env "sqlite:///:memory:" false w ->
  get_engine_and_connection env Absent w
  = (Return (None, new_connection env "sqlite:///:memory:" false w),
     after_opening env "sqlite:///:memory:" false w).
Proof.
  intros [H1 H2]. unfold get_engine_and_connection.
  rewrite open_engine_and_connection. by rewrite H1, H2.
Qed.

(** C3, as the code has it.  With no input the resolver creates an engine
    on the in-memory SQLite URL and connects to it; when neither step
    raises it returns no engine handle, only the new connection, and
    leaves both the engine and the connection open. *)
Theorem resolver_without_input_returns_no_engine (w : World) :
  opens_cleanly env "sqlite:///:memory:" false w ->
  exists c w',
    get_engine_and_connection env Absent w = (Return (None, c), w')
    /\ engine_url (engine c) = "sqlite:///:memory:"
    /\ connection_id c = owned_connection w
    /\ engine_id (engine c) = owned_engine w
    /\ kept_own w w'
    /\ log w' = log w ++ [create_engine_ev (engine c); connect_ev c].
Proof.
  intros Hopen. eexists _, _. split; [by apply resolve_Absent|].
  repeat split.
Qed.

(** *** Release at the end of a call *)

Lemma raises_only_bind {A B} Q (m : M A) (k : A -> M B) :
  raises_only Q m -> (forall a, raises_only Q (k a)) -> raises_only Q (m ≫= k).
Proof.
  intros Hm Hk w e w'. unfold_monad.
  destruct (m w) as [[a|e1] w1] eqn:Hmw.
  - apply Hk.
  - intros [= <- <-]. eapply Hm, Hmw.
Qed.

Lemma raises_only_ret {A} Q (a : A) : raises_only Q (mret a).
Proof. by intros w e w'. Qed.

Lemma raises_only_gets {A} Q (f : World -> A) : raises_only Q (gets f).
Proof. by intros w e w'. Qed.

Lemma raises_only_on_connection (Q : Exn -> bool) c ev :
  Q (ResourceClosedError c) = true -> Q (DatabaseError ev) = true ->
  raises_only Q (on_connection env c ev).
Proof.
  intros H1 H2 w e w'. unfold on_connection, attempt.
  case_bool_decide; [by intros [= <- <-]|].
  destruct (raises env (log w) ev); [by intros [= <- <-]|done].
Qed.

Lemma raises_only_infer_columns cols : raises_only not_read_error (infer_columns cols).
Proof.
  induction cols as [|c cols IH]; simpl; [apply raises_only_ret|].
  apply raises_only_bind.
  - intros w e w'. pose proof (infer_column_kind c w) as H.
    destruct (tabular_kind _); [destruct H as [c' H]|]; rewrite H; [done|].
    by intros [= <- <-].
  - intros [dt c']. apply raises_only_bind; [done|].
    intros [[names types] cols']. apply raises_only_ret.
Qed.

Lemma raises_only_from_sql_work c tn :
  raises_only not_read_error (from_sql_work env c tn).
Proof.
  unfold from_sql_work.
  apply raises_only_bind; [apply raises_only_gets|]. intros h.
  apply raises_only_bind; [by apply raises_only_on_connection|]. intros _.
  apply raises_only_bind; [apply raises_only_infer_columns|].
  intros [[names types] cols].
  apply raises_only_bind; [|intros cur; apply raises_only_ret].
  unfold execute.
  apply raises_only_bind; [apply raises_only_gets|]. intros h'.
  apply raises_only_bind; [by apply raises_only_on_connection|]. intros _.
  apply raises_only_ret.
Qed.

(** A [try] whose [finally] releases an owned engine: when the call leaves
    with the result of the body, the connection is closed and the engine
    disposed. *)
Lemma finally_releases {B} P (last : M B) e c w2 r w' :
  quiet P last ->
  try_finally last (release env (Some e) c) w2 = (r, w') ->
  left_through_finally r ->
  opened_engines w' = opened_engines w2
  /\ opened_connections w' = opened_connections w2
  /\ closed w' = {[connection_id c]} ∪ closed w2
  /\ disposed w' = {[engine_id e]} ∪ disposed w2.
Proof.
  intros Hq. unfold try_finally. specialize (Hq w2).
  destruct (last w2) as [r3 w3]. simpl in Hq.
  destruct Hq as (He & Hc & Hcl & Hd & _).
  unfold release, close, dispose, attempt. unfold_monad. simpl.
  destruct (raises env (log w3) (close_ev c)); [by intros [= <- <-]|]. simpl.
  destruct (raises env _ (dispose_ev e)); [by intros [= <- <-]|]. simpl.
  intros [= <- <-] _. simpl. by rewrite He, Hc, Hcl, Hd.
Qed.

Lemma resolve_bind {A} arg (K : option Engine * Connection -> M A) w :
  (get_engine_and_connection env arg ≫= K) w
  = match arg with
    | Absent =>
        (eng ← create_engine env "sqlite:///:memory:" false;
         c ← connect env eng; K (None, c)) w
    | Existing c => K (None, c) w
    | ConnectionString url =>
        (eng ← create_engine env url (bool_decide (urlsplit_scheme env url = "mssql+pyodbc"));
         c ← connect env eng; K (Some eng, c)) w
    end.
Proof.
  destruct arg as [|c|url]; unfold get_engine_and_connection; unfold_monad; [|done|].
  - destruct (create_engine env _ _ w) as [[eng|e] w1]; [|done].
    by destruct (connect env eng w1) as [[c|e] w2].
  - destruct (create_engine env _ _ w) as [[eng|e] w1]; [|done].
    by destruct (connect env eng w1) as [[c|e] w2].
Qed.

Lemma to_sql_releases self url tn kw w t w' :
  to_sql env self (ConnectionString url) tn kw w = (Return t, w') ->
  released_own w w'.
Proof.
  rewrite to_sql_shape, resolve_bind, open_engine_and_connection.
  set (fast := bool_decide _).
  destruct (raises env (log w) _); [done|].
  destruct (raises env (log w ++ _) _); [done|].
  unfold_monad.
  pose proof (quiet_to_sql_work self (new_connection env url fast w) tn kw
                (after_opening env url fast w)) as Hq.
  destruct (to_sql_work _ _ _ _ _ _) as [[t2|e] w2]; [|done].
  destruct Hq as (He & Hc & Hcl & Hd & _). simpl in *.
  intros Hfin.
  eapply (finally_releases is_write) in Hfin as (He' & Hc' & Hcl' & Hd');
    [|apply quiet_ret|done].
  unfold released_own, opened_own. simpl in *.
  by rewrite He', Hc', Hcl', Hd', He, Hc, Hcl, Hd.
Qed.

Lemma from_sql_releases url tn w :
  left_through_finally (from_sql env (ConnectionString url) tn w).1 ->
  released_own w (from_sql env (ConnectionString url) tn w).2.
Proof.
  rewrite from_sql_shape, resolve_bind, open_engine_and_connection.
  set (fast := bool_decide _).
  destruct (raises env (log w) _); [done|].
  destruct (raises env (log w ++ _) _); [done|].
  unfold_monad.
  pose proof (quiet_from_sql_work (new_connection env url fast w) tn
                (after_opening env url fast w)) as Hq.
  pose proof (raises_only_from_sql_work (new_connection env url fast w) tn
                (after_opening env url fast w)) as Hr.
  destruct (from_sql_work _ _ _ _) as [[[[cur names] types]|e] w2].
  - destruct Hq as (He & Hc & Hcl & Hd & _). simpl in *.
    destruct (try_finally _ _ w2) as [r w'] eqn:Hfin. simpl. intros Hleft.
    eapply (finally_releases is_read) in Hfin as (He' & Hc' & Hcl' & Hd');
      [|by apply quiet_agate_Table|done].
    unfold released_own, opened_own. simpl in *.
    by rewrite He', Hc', Hcl', Hd', He, Hc, Hcl, Hd.
  - simpl. intros Hleft. specialize (Hr _ _ eq_refl).
    unfold not_read_error in Hr. by rewrite Hleft in Hr.
Qed.

(** With no input the engine is not handed to the caller, and nothing the
    rest of the call does releases anything. *)
Lemma absent_never_releases {A} (K : option Engine * Connection -> M A) w :
  (forall c, quiet not_release (K (None, c))) ->
  let w' := ((get_engine_and_connection env Absent ≫= K) w).2 in
  closed w' = closed w /\ disposed w' = disposed w
  /\ exists evs, log w' = log w ++ evs /\ Forall (fun ev => not_release ev = true) evs.
Proof.
  intros HK. rewrite resolve_bind, open_engine_and_connection.
  destruct (raises env (log w) _); simpl.
  { repeat split. eexists. split; [done|]. by repeat constructor. }
  destruct (raises env (log w ++ _) _); simpl.
  { repeat split. eexists. split; [done|]. by repeat constructor. }
  destruct (HK (new_connection env "sqlite:///:memory:" false w)
               (after_opening env "sqlite:///:memory:" false w))
    as (_ & _ & Hcl & Hd & evs & Hl & Hev).
  rewrite Hcl, Hd, Hl. simpl. repeat split.
  eexists. rewrite <- app_assoc. split; [done|]. by repeat constructor.
Qed.

(** C2, as the code has it.  Given a connection string, [to_sql] has closed
    the connection and disposed the engine it opened whenever it returns,
    and [from_sql] whenever it returns or fails while reading the rows into
    the table.  Given no connection at all, neither function ever closes or
    disposes anything, whichever way it ends. *)
Theorem owned_engine_is_released_at_the_end
    (self : AgateTable) (url table_name : string) (kw : to_sql_kwargs) (w : World) :
  (forall t w', to_sql env self (ConnectionString url) table_name kw w = (Return t, w') ->
                released_own w w')
  /\ (left_through_finally (from_sql env (ConnectionString url) table_name w).1 ->
      released_own w (from_sql env (ConnectionString url) table_name w).2)
  /\ (let w' := (to_sql env self Absent table_name kw w).2 in
      closed w' = closed w /\ disposed w' = disposed w)
  /\ (let w' := (from_sql env Absent table_name w).2 in
      closed w' = closed w /\ disposed w' = disposed w).
Proof.
  split; [intros t w'; apply to_sql_releases|].
  split; [apply from_sql_releases|].
  split.
  - rewrite to_sql_shape.
    edestruct (absent_never_releases (A := SqlTable)) as (Hc & Hd & _); [|by eauto].
    intros c. apply quiet_bind.
    + eapply quiet_mono; [|apply quiet_to_sql_work]. by intros [].
    + intros t. apply quiet_try_finally; apply quiet_ret.
  - rewrite from_sql_shape.
    edestruct (absent_never_releases (A := AgateTable)) as (Hc & Hd & _); [|by eauto].
    intros c. apply quiet_bind.
    + eapply quiet_mono; [|apply quiet_from_sql_work]. by intros [].
    + intros [[cur names] types].
      apply quiet_try_finally; [by apply quiet_agate_Table|apply quiet_ret].
Qed.

End Resources.

(** ** Batched inserts *)

Lemma ceil_div_spec n k :
  0 < k -> (ceil_div n k - 1) * k < n <= ceil_div n k * k.
Proof.
  intros Hk. unfold ceil_div.
  pose proof (Z.div_mod (n + k - 1) k ltac:(lia)) as Hdm.
  pose proof (Z.mod_pos_bound (n + k - 1) k Hk) as Hb. nia.
Qed.

Lemma range_count n k :
  0 < k -> 0 <= n -> (n - 1) `div` k + 1 = ceil_div n k.
Proof.
  intros Hk Hn. unfold ceil_div.
  replace (n + k - 1) with ((n - 1) + 1 * k) by lia.
  rewrite Z.div_add by lia. done.
Qed.

Lemma concat_take_drop {A B} (f : A -> B) (l : list A) (k n : nat) :
  concat ((fun i => f <$> take k (drop (i * k) l)) <$> seq 0 n) = f <$> take (n * k) l.
Proof.
  induction n as [|n IH]; [done|].
  rewrite seq_S, fmap_app, concat_app, IH. simpl.
  rewrite app_nil_r, <- fmap_app, take_take_drop. do 2 f_equal. lia.
Qed.

(** The slice taken by turn [i] of the loop is the [i]-th run of
    [chunk_size] rows. *)
Lemma chunk_take_drop self K (i : nat) :
  0 < K -> Z.of_nat i * K <= Z.of_nat (length (rows self)) ->
  chunk self K (Z.of_nat i)
  = row_dict self <$> take (Z.to_nat K) (drop (i * Z.to_nat K) (rows self)).
Proof.
  intros HK Hi. unfold chunk, slice, clamp_index. f_equal.
  set (N := Z.of_nat (length (rows self))) in *.
  set (e := if N <? (Z.of_nat i + 1) * K then N else (Z.of_nat i + 1) * K).
  assert (He : e = Z.min ((Z.of_nat i + 1) * K) N).
  { unfold e. destruct (Z.ltb_spec N ((Z.of_nat i + 1) * K)); lia. }
  destruct (Z.ltb_spec (Z.of_nat i * K) 0); [lia|].
  destruct (Z.ltb_spec e 0); [lia|].
  rewrite (Z.min_l (Z.of_nat i * K) N) by lia.
  rewrite (Z2Nat.inj_mul (Z.of_nat i) K), Nat2Z.id by lia.
  rewrite (Z.min_l e N) by lia.
  destruct (decide ((Z.of_nat i + 1) * K <= N)).
  - f_equal. lia.
  - rewrite !take_ge; [done| |]; rewrite length_drop; nia.
Qed.

Section Batches.

Variable env : Env.

Lemma on_connection_log c ev w w' :
  on_connection env c ev w = (Return tt, w') -> log w' = log w ++ [ev].
Proof.
  unfold on_connection, attempt. case_bool_decide; [done|].
  destruct (raises env (log w) ev); [done|]. by intros [= <-].
Qed.

Lemma for_each_log {A} c (f : A -> Event) xs w w' :
  for_each xs (fun x => on_connection env c (f x)) w = (Return tt, w') ->
  log w' = log w ++ (f <$> xs).
Proof.
  revert w. induction xs as [|x xs IH]; intros w; simpl.
  - intros [= <-]. by rewrite app_nil_r.
  - unfold_monad.
    destruct (on_connection env c (f x) w) as [[[]|e] w1] eqn:Hx; [|done].
    intros Hrest. apply IH in Hrest. apply on_connection_log in Hx.
    by rewrite Hrest, Hx, <- app_assoc.
Qed.

Lemma for_each_returns {A} c (f : A -> Event) xs w :
  connection_id c ∉ closed w ->
  (forall history x, raises env history (f x) = false) ->
  exists w', for_each xs (fun x => on_connection env c (f x)) w = (Return tt, w').
Proof.
  intros Hopen Hquiet. revert w Hopen.
  induction xs as [|x xs IH]; intros w Hopen; simpl; [by eexists|].
  unfold_monad. unfold on_connection at 1, attempt.
  rewrite bool_decide_eq_false_2 by done. rewrite Hquiet.
  apply IH. done.
Qed.


End Batches.

(** ** The query executor *)

Section Queries.

Variable env : Env.

Lemma run_queries_no_statement c queries rows w :
  Forall (fun q => q = "") queries ->
  run_queries env c queries rows w = (Return rows, w).
Proof.
  induction 1 as [|q queries -> _ IH]; simpl; done.
Qed.

(** C10.  When the query text holds no non-empty statement, [sql_query]
    ends in an exception and has sent no statement to the database; and
    when the in-memory database opened and the table was written to it, the
    exception is the [TypeError] of iterating [None], raised in the world
    the write left behind. *)
Theorem sql_query_without_statement
    (self : AgateTable) (query table_name : string) (w : World) :
  Forall (fun q => q = "") (split ";" query) ->
  let run := sql_query env self query table_name w in
  let c := new_connection env "sqlite:///:memory:" false w in
  let w1 := after_opening env "sqlite:///:memory:" false w in
  (exists e, run.1 = Raise e)
  /\ (exists evs, log run.2 = log w ++ evs
                  /\ Forall (fun ev => not_statement ev = true) evs)
  /\ (opens_cleanly env "sqlite:///:memory:" false w ->
      forall t w2,
        to_sql env self (Existing c) table_name to_sql_defaults w1 = (Return t, w2) ->
        run = (Raise NoneType_not_iterable, w2)).
Proof.
  intros Hempty run c w1. unfold run, sql_query.
  rewrite resolve_bind, open_engine_and_connection.
  destruct (raises env (log w) _) eqn:H1.
  { split; [by eexists|]. split.
    - eexists. split; [done|]. by repeat constructor.
    - intros [H1' _]. congruence. }
  destruct (raises env (log w ++ _) _) eqn:H2.
  { split; [by eexists|]. split.
    - eexists. split; [done|]. by repeat constructor.
    - intros [_ H2']. congruence. }
  fold c w1. unfold_monad.
  pose proof (quiet_to_sql_Existing env self c table_name to_sql_defaults w1) as Hq.
  destruct (to_sql env self (Existing c) table_name to_sql_defaults w1)
    as [[t|e] w2] eqn:Hwrite; simpl in Hq;
    destruct Hq as (_ & _ & _ & _ & evs & Hl & Hev).
  - rewrite run_queries_no_statement by done. simpl.
    split; [by eexists|]. split.
    + eexists. rewrite Hl. unfold w1. simpl. rewrite <- app_assoc. split; [done|].
      apply Forall_app. split; [by repeat constructor|].
      eapply Forall_impl; [exact Hev|]. by intros [].
    + intros _ t' w2' [= <- <-]. done.
  - simpl. split; [by eexists|]. split.
    + eexists. rewrite Hl. unfold w1. simpl. rewrite <- app_assoc. split; [done|].
      apply Forall_app. split; [by repeat constructor|].
      eapply Forall_impl; [exact Hev|]. by intros [].
    + intros _ t' w2' [=].
Qed.

End Queries.

(** * Examples and counterexamples *)

Lemma nullable_follows_HasNulls_witness :
  let r := make_sql_table sample_env sample_table "people" (Some "mysql") None true [] 1 1
             initial_world in
  exists t, r.1 = Return t
    /\ (exists column, sql_table_columns t !! 0%nat = Some column
          /\ nullable column = Some false
          /\ (is_nullable column = true <-> false = true))
    /\ (exists column, sql_table_columns t !! 3%nat = Some column
          /\ nullable column = None /\ is_nullable column = true).
Proof.
  eexists. split; [reflexivity|]. split.
  - exact (nullable_follows_HasNulls sample_env sample_table "people" (Some "mysql") None []
             1 1 initial_world _ _ 0%nat "name" (Instance_of Text)
             SQL_TYPE_MAP_inv eq_refl eq_refl).
  - exact (nullable_follows_HasNulls sample_env sample_table "people" (Some "mysql") None []
             1 1 initial_world _ _ 3%nat "seen" (Instance_of DateTime)
             SQL_TYPE_MAP_inv eq_refl eq_refl).
Defined.



Lemma supplied_connection_is_never_released_witness :
  (connection_id sample_connection
     ∉ closed (from_sql sample_env (Existing sample_connection) "people" caller_world).2)
  /\ (connection_id sample_connection
       ∉ closed (to_sql sample_env sample_table (Existing sample_connection) "people"
                        to_sql_defaults caller_world).2).
Proof.
  apply (supplied_connection_is_never_released sample_env sample_table sample_connection
           "people" to_sql_defaults caller_world).
  apply not_elem_of_empty.
Defined.

(** C3, as stated, fails: with no input the resolver opens engine 0 and
    returns [None] in the place of the engine. *)
Lemma resolver_without_input_drops_the_engine :
  let run := get_engine_and_connection sample_env Absent initial_world in
  run.1 = Return (None, mkConnection 0 (mkEngine 0 "sqlite:///:memory:" false "sqlite"))
  /\ opened_engines run.2 = {[0%nat]}
  /\ ~ exists e c, run.1 = Return (Some e, c).
Proof.
  split; [reflexivity|]. split; [reflexivity|].
  intros (e & c & H). vm_compute in H. discriminate.
Qed.

Lemma resolver_without_input_returns_no_engine_witness :
  exists c w',
    get_engine_and_connection sample_env Absent initial_world = (Return (None, c), w')
    /\ engine_url (engine c) = "sqlite:///:memory:"
    /\ connection_id c = owned_connection initial_world
    /\ engine_id (engine c) = owned_engine initial_world
    /\ kept_own initial_world w'
    /\ log w' = log initial_world ++ [create_engine_ev (engine c); connect_ev c].
Proof.
  apply (resolver_without_input_returns_no_engine sample_env initial_world).
  split; reflexivity.
Defined.

(** C2, as stated, fails.  With a connection string and a database that
    refuses the CREATE TABLE, [to_sql] ends in that error with the
    connection it opened still open and its engine not disposed; and with
    no connection at all, [to_sql] returns normally and leaves the
    connection and engine it opened unreleased. *)
Lemma owned_engine_is_not_always_released :
  let failed := to_sql (sample_env_with create_fails) sample_table
                  (ConnectionString "sqlite:///data.db") "people" to_sql_defaults
                  initial_world in
  let absent := to_sql sample_env sample_table Absent "people" to_sql_defaults
                  initial_world in
  (exists ev, failed.1 = Raise (DatabaseError ev) /\ is_write ev = true)
  /\ opened_connections failed.2 = {[0%nat]} /\ opened_engines failed.2 = {[0%nat]}
  /\ closed failed.2 = ∅ /\ disposed failed.2 = ∅
  /\ ~ released_own initial_world failed.2
  /\ (exists t, absent.1 = Return t)
  /\ opened_connections absent.2 = {[0%nat]} /\ opened_engines absent.2 = {[0%nat]}
  /\ closed absent.2 = ∅ /\ disposed absent.2 = ∅
  /\ ~ released_own initial_world absent.2.
Proof.
  assert (Hne : ({[0%nat]} ∪ ∅ : gset nat) <> ∅).
  { intros H. apply (not_elem_of_empty (C := gset nat) 0%nat). rewrite <- H. set_solver. }
  repeat split; try reflexivity.
  - eexists. split; reflexivity.
  - intros (_ & Hc & _). apply Hne. symmetry. exact Hc.
  - eexists. reflexivity.
  - intros (_ & Hc & _). apply Hne. symmetry. exact Hc.
Qed.

Lemma owned_engine_is_released_at_the_end_witness :
  let w' := (to_sql sample_env sample_table (ConnectionString "sqlite:///data.db") "people"
                    to_sql_defaults initial_world).2 in
  released_own initial_world w'
  /\ released_own initial_world
       (from_sql sample_env (ConnectionString "sqlite:///data.db") "people" initial_world).2.
Proof.
  intros w'.
  destruct (owned_engine_is_released_at_the_end sample_env sample_table
              "sqlite:///data.db" "people" to_sql_defaults initial_world)
    as (Hwrite & Hread & _).
  split.
  - eapply Hwrite. unfold w'. vm_compute. reflexivity.
  - apply Hread. vm_compute. exact I.
Defined.


Lemma sql_query_without_statement_witness :
  let run := sql_query sample_env sample_table ";;" "agate" initial_world in
  run.1 = Raise NoneType_not_iterable
  /\ is_write <$> log run.2 = [false; false; true; true].
Proof.
  intros run.
  destruct (sql_query_without_statement sample_env sample_table ";;" "agate" initial_world)
    as (_ & _ & H).
  - repeat constructor.
  - unfold run. erewrite H; [|split; reflexivity|vm_compute; reflexivity].
    split; reflexivity.
Defined.

(** * Further properties *)

(** ** The dialect dictionaries *)

Lemma dialect_in_cons d x xs :
  dialect_in (Some d) (x :: xs) = bool_decide (d = x) || dialect_in (Some d) xs.
Proof.
  unfold dialect_in. rewrite <- bool_decide_or. apply bool_decide_ext, elem_of_cons.
Qed.

Lemma dialect_in_nil d : dialect_in d [] = false.
Proof. destruct d; [|done]. unfold dialect_in. case_bool_decide; [set_solver|done]. Qed.

Lemma BOOLEAN_MAP_get d :
  dict_get BOOLEAN_MAP d BOOLEAN = if dialect_is d "mssql" then BIT else BOOLEAN.
Proof.
  unfold dict_get, dialect_is, BOOLEAN_MAP. destruct d as [d|]; [|done]. simpl.
  case_bool_decide as H.
  - simplify_eq. by rewrite lookup_singleton_eq.
  - rewrite lookup_singleton_ne; [done|congruence].
Qed.

Lemma DATETIME_MAP_get d :
  dict_get DATETIME_MAP d TIMESTAMP = if dialect_is d "mssql" then DATETIME else TIMESTAMP.
Proof.
  unfold dict_get, dialect_is, DATETIME_MAP. destruct d as [d|]; [|done]. simpl.
  case_bool_decide as H.
  - simplify_eq. by rewrite lookup_singleton_eq.
  - rewrite lookup_singleton_ne; [done|congruence].
Qed.

Lemma NUMBER_MAP_get d :
  dict_get NUMBER_MAP d DECIMAL = if dialect_in d ["crate"; "sqlite"] then FLOAT else DECIMAL.
Proof.
  destruct d as [d|]; [|done].
  rewrite !dialect_in_cons, dialect_in_nil. unfold dict_get, NUMBER_MAP.
  repeat case_bool_decide; subst; simpl; try done.
  rewrite !lookup_insert_ne by done. by rewrite lookup_empty.
Qed.

Lemma INTERVAL_MAP_get d :
  dict_get INTERVAL_MAP d Interval
  = if dialect_is d "postgresql" then POSTGRES_INTERVAL
    else if dialect_is d "oracle" then ORACLE_INTERVAL else Interval.
Proof.
  destruct d as [d|]; [|done]. unfold dict_get, dialect_is, INTERVAL_MAP. simpl.
  repeat case_bool_decide; simplify_eq; simpl; try done.
  rewrite !lookup_insert_ne by congruence. by rewrite lookup_empty.
Qed.

Section MoreSynthesis.

Variable env : Env.

Lemma table_column_name table dialect cons mcl clm cname k :
  name (table_column env table dialect cons mcl clm cname k) = cname.
Proof.
  unfold table_column. destruct cons; [|done].
  by destruct (text_rule _ _ _ _ _ _ _), (number_rule _ _ _ _ _).
Qed.

(** The class of every column of a synthesized table is the dialect's
    override where one of the four dictionaries has one and the default
    otherwise: BIT and DATETIME on mssql, FLOAT on crate and sqlite, the
    native INTERVAL on postgresql and oracle; DATE always; and for Text,
    VARCHAR unless the length rule chose TEXT. *)
Theorem column_class_by_dialect
    (table : AgateTable) (table_name : string) (dialect db_schema : option string)
    (constraints : bool) (unique_constraint : list string)
    (min_col_len col_len_multiplier : Z) (w w' : World) (t : SqlTable)
    (i : nat) (column_name : string) (k : agate_type) :
  type_map_inv (SQL_TYPE_MAP_now w) ->
  columns_items table !! i = Some (column_name, Instance_of k) ->
  make_sql_table env table table_name dialect db_schema constraints unique_constraint
                 min_col_len col_len_multiplier w = (Return t, w') ->
  exists column,
    sql_table_columns t !! i = Some column
    /\ match k with
       | Boolean => class_of column = if dialect_is dialect "mssql" then BIT else BOOLEAN
       | Number =>
           class_of column = if dialect_in dialect ["crate"; "sqlite"] then FLOAT else DECIMAL
       | Date => class_of column = DATE
       | DateTime =>
           class_of column = if dialect_is dialect "mssql" then DATETIME else TIMESTAMP
       | TimeDelta =>
           class_of column
           = if dialect_is dialect "postgresql" then POSTGRES_INTERVAL
             else if dialect_is dialect "oracle" then ORACLE_INTERVAL else Interval
       | Text =>
           class_of column = VARCHAR
           \/ (class_of column = TEXT /\ constraints = true
               /\ dialect_in dialect ["ingres"; "mysql"] = true)
       end.
Proof.
  intros Hinv Hi Hrun.
  destruct (make_sql_table_columns env _ _ _ _ _ _ _ _ _ _ _ Hinv Hrun) as [_ Hcols].
  destruct (Hcols _ _ _ Hi) as (k' & [= <-] & Hcol).
  eexists. split; [exact Hcol|].
  unfold class_of, table_column, text_rule, number_rule.
  destruct constraints, k; simpl;
    rewrite ?BOOLEAN_MAP_get, ?NUMBER_MAP_get, ?DATETIME_MAP_get, ?INTERVAL_MAP_get;
    try done; try (by left).
  - by destruct (dialect_in dialect ["ingres"; "mssql"; "mysql"; "oracle"]).
  - destruct (dialect_in dialect ["ingres"; "mysql"]); [|by left].
    match goal with |- context [if ?b then _ else _] => destruct b end; simpl; auto.
Qed.

(** With constraints enabled a Number column gets precision 38 and, as
    scale, the largest number of decimal places in the data, on ingres,
    mssql, mysql and oracle, where its type is DECIMAL; on every other
    dialect it gets neither precision nor scale. *)
Theorem number_column_precision_rule
    (table : AgateTable) (table_name : string) (dialect db_schema : option string)
    (unique_constraint : list string) (min_col_len col_len_multiplier : Z)
    (w w' : World) (t : SqlTable) (i : nat) (column_name : string) :
  type_map_inv (SQL_TYPE_MAP_now w) ->
  columns_items table !! i = Some (column_name, Instance_of Number) ->
  make_sql_table env table table_name dialect db_schema true unique_constraint
                 min_col_len col_len_multiplier w = (Return t, w') ->
  type_ <$> sql_table_columns t !! i
  = Some (if dialect_in dialect ["ingres"; "mssql"; "mysql"; "oracle"]
          then mkType DECIMAL None (Some 38) (Some (MaxPrecision env table column_name))
          else mkType (if dialect_in dialect ["crate"; "sqlite"] then FLOAT else DECIMAL)
                      None None None).
Proof.
  intros Hinv Hi Hrun.
  destruct (make_sql_table_columns env _ _ _ _ _ _ _ _ _ _ _ Hinv Hrun) as [_ Hcols].
  destruct (Hcols _ _ _ Hi) as (k' & [= <-] & ->). simpl. f_equal.
  unfold table_column, text_rule, number_rule. simpl. rewrite NUMBER_MAP_get.
  destruct dialect as [d|]; [|done].
  rewrite !dialect_in_cons, !dialect_in_nil.
  repeat case_bool_decide; subst; simpl; done.
Qed.

Lemma for_columns_ext items body1 body2 w :
  (forall x v, body1 x v = body2 x v) ->
  for_columns items body1 w = for_columns items body2 w.
Proof.
  intros Hext. revert w. induction items as [|x items IH]; intros w; simpl; [done|].
  unfold_monad. rewrite Hext. destruct (body2 x w) as [[c|e] w1]; [|done].
  by rewrite IH.
Qed.

(** With constraints disabled the schema does not depend on the data: two
    tables with the same columns give the same result whatever their rows,
    their aggregations and the length arguments are, and every column of
    the result carries a bare type and no [nullable] argument. *)
Theorem unconstrained_schema_ignores_the_data
    (env' : Env) (table table' : AgateTable) (table_name : string)
    (dialect db_schema : option string) (unique_constraint : list string)
    (min_col_len col_len_multiplier min_col_len' col_len_multiplier' : Z) (w : World) :
  columns_items table = columns_items table' ->
  make_sql_table env table table_name dialect db_schema false unique_constraint
                 min_col_len col_len_multiplier w
  = make_sql_table env' table' table_name dialect db_schema false unique_constraint
                   min_col_len' col_len_multiplier' w
  /\ forall t w',
       make_sql_table env table table_name dialect db_schema false unique_constraint
                      min_col_len col_len_multiplier w = (Return t, w') ->
       Forall (fun column =>
                 length_kw (type_ column) = None /\ precision_kw (type_ column) = None
                 /\ scale_kw (type_ column) = None /\ nullable column = None)
              (sql_table_columns t).
Proof.
  intros Hcols. split.
  - unfold make_sql_table, build_sql_table. unfold_monad.
    destruct (set_dialect_types dialect w) as [[[]|e] w1]; [|done].
    rewrite Hcols.
    rewrite (for_columns_ext _ _
               (make_table_column env' table' dialect false min_col_len' col_len_multiplier'));
      [done|]. by intros [cname dt] v.
  - intros t w'. unfold make_sql_table, build_sql_table. unfold_monad.
    destruct (set_dialect_types dialect w) as [[[]|e] w1]; [|done].
    destruct (for_columns _ _ w1) as [[cols|e] w2] eqn:Hloop; [|done].
    intros [= <- <-]. simpl.
    apply for_columns_lookup in Hloop as (_ & Hlen & Hlook);
      [|intros ? ? ? ?; apply make_table_column_pure].
    apply Forall_lookup. intros i column Hi.
    destruct (lookup_lt_is_Some_2 (columns_items table) i) as [[cname dt] Hitem].
    { rewrite <- Hlen. by eapply lookup_lt_Some. }
    destruct (Hlook _ _ Hitem) as (col & Hcol & Hrun).
    rewrite Hi in Hcol. injection Hcol as <-.
    unfold make_table_column, make_sql_column in Hrun. unfold_monad.
    destruct (first_isinstance dt (SQL_TYPE_MAP_now w1)); [|done].
    by injection Hrun as <-.
Qed.

End MoreSynthesis.

(** ** What [to_sql] sends, and where it stops *)

Lemma with_log_with_log l l' w : with_log l (with_log l' w) = with_log l w.
Proof. done. Qed.

Lemma with_log_log w : with_log (log w) w = w.
Proof. by destruct w. Qed.

Section Writes.

Variable env : Env.

Lemma on_connection_run c ev w :
  connection_id c ∉ closed w -> raises env (log w) ev = false ->
  on_connection env c ev w = (Return tt, with_log (log w ++ [ev]) w).
Proof.
  intros Hopen Hok. unfold on_connection, attempt.
  rewrite bool_decide_eq_false_2 by done. by rewrite Hok.
Qed.

Lemma on_connection_fail c ev w :
  connection_id c ∉ closed w -> raises env (log w) ev = true ->
  on_connection env c ev w = (Raise (DatabaseError ev), with_log (log w ++ [ev]) w).
Proof.
  intros Hopen Hok. unfold on_connection, attempt.
  rewrite bool_decide_eq_false_2 by done. by rewrite Hok.
Qed.

Lemma for_each_run {A} c (f : A -> Event) xs w :
  connection_id c ∉ closed w ->
  (forall (j : nat) x, xs !! j = Some x ->
     raises env (log w ++ (f <$> take j xs)) (f x) = false) ->
  for_each xs (fun x => on_connection env c (f x)) w
  = (Return tt, with_log (log w ++ (f <$> xs)) w).
Proof.
  revert w. induction xs as [|x xs IH]; intros w Hopen Hok; simpl.
  - by rewrite app_nil_r, with_log_log.
  - erewrite bind_Return.
    2:{ apply on_connection_run; [done|].
        specialize (Hok 0%nat x eq_refl). simpl in Hok. by rewrite app_nil_r in Hok. }
    rewrite IH; [|done|].
    + simpl. by rewrite <- app_assoc.
    + intros j y Hj. specialize (Hok (S j) y Hj). simpl in *.
      by rewrite <- app_assoc.
Qed.

Lemma for_each_fail {A} c (f : A -> Event) xs (k : nat) x w :
  connection_id c ∉ closed w ->
  xs !! k = Some x ->
  (forall (j : nat) y, (j < k)%nat -> xs !! j = Some y ->
     raises env (log w ++ (f <$> take j xs)) (f y) = false) ->
  raises env (log w ++ (f <$> take k xs)) (f x) = true ->
  for_each xs (fun x => on_connection env c (f x)) w
  = (Raise (DatabaseError (f x)), with_log (log w ++ (f <$> take (S k) xs)) w).
Proof.
  revert w k. induction xs as [|y xs IH]; intros w k Hopen Hk Hok Hbad; [done|].
  simpl. destruct k as [|k]; simpl in *.
  - injection Hk as ->. rewrite app_nil_r in Hbad.
    erewrite bind_Raise; [|by apply on_connection_fail]. done.
  - erewrite bind_Return.
    2:{ apply on_connection_run; [done|].
        specialize (Hok 0%nat y ltac:(lia) eq_refl). simpl in Hok.
        by rewrite app_nil_r in Hok. }
    rewrite (IH _ k); [|done|done| |].
    + simpl. by rewrite <- app_assoc.
    + intros j z Hj Hz. specialize (Hok (S j) z ltac:(lia) Hz). simpl in *.
      by rewrite <- app_assoc.
    + simpl. by rewrite <- app_assoc.
Qed.

(** On success the synthesized table has the name and schema it was asked
    for, one column per column of the agate table with the same names in
    the same order, and the unique constraint exactly when the list of its
    columns is not empty. *)
Theorem sql_table_shape
    (table : AgateTable) (table_name : string) (dialect db_schema : option string)
    (constraints : bool) (unique_constraint : list string)
    (min_col_len col_len_multiplier : Z) (w w' : World) (t : SqlTable) :
  type_map_inv (SQL_TYPE_MAP_now w) ->
  make_sql_table env table table_name dialect db_schema constraints unique_constraint
                 min_col_len col_len_multiplier w = (Return t, w') ->
  sql_table_name t = table_name
  /\ sql_table_schema t = db_schema
  /\ name <$> sql_table_columns t = (columns_items table).*1
  /\ unique_constraints t = (if decide (unique_constraint = []) then []
                             else [unique_constraint]).
Proof.
  intros Hinv Hrun.
  pose proof (make_sql_table_columns env _ _ _ _ _ _ _ _ _ _ _ Hinv Hrun) as [_ Hcols].
  unfold make_sql_table, build_sql_table in Hrun. unfold_monad.
  destruct (set_dialect_types dialect w) as [[[]|e] w1]; [|done].
  destruct (for_columns _ _ w1) as [[cols|e] w2] eqn:Hloop; [|done].
  injection Hrun as <- <-. simpl in *.
  apply for_columns_lookup in Hloop as (_ & Hlen & _);
    [|intros ? ? ? ?; apply make_table_column_pure].
  repeat split.
  - apply list_eq. intros i. rewrite !list_lookup_fmap.
    destruct (columns_items table !! i) as [[cname dt]|] eqn:Hi; simpl.
    + destruct (Hcols _ _ _ Hi) as (k & -> & ->). simpl.
      by rewrite table_column_name.
    + rewrite lookup_ge_None_2; [done|]. rewrite Hlen. by apply lookup_ge_None_1.
  - by destruct unique_constraint.
Qed.

Lemma create_stage_run c t kw w :
  connection_id c ∉ closed w -> never_refuses_writes env ->
  when (create kw) (
    when (overwrite kw) (on_connection env c (drop_ev c t true));;
    on_connection env c (create_ev c t (create_if_not_exists kw))) w
  = (Return tt,
     with_log (log w ++ (if create kw && overwrite kw then [drop_ev c t true] else [])
                     ++ (if create kw then [create_ev c t (create_if_not_exists kw)] else []))
              w).
Proof.
  intros Hopen Hok. destruct (create kw), (overwrite kw); simpl.
  - erewrite bind_Return by (apply on_connection_run; [done|by apply Hok]).
    rewrite on_connection_run; [|done|by apply Hok]. simpl. by rewrite <- app_assoc.
  - erewrite bind_Return by reflexivity.
    by rewrite on_connection_run; [|done|by apply Hok].
  - by rewrite app_nil_r, with_log_log.
  - by rewrite app_nil_r, with_log_log.
Qed.

Lemma insert_rows_run self c t prefixes chunk_size w :
  connection_id c ∉ closed w -> never_refuses_writes env -> chunk_size <> Some 0 ->
  insert_rows env self c t prefixes chunk_size w
  = (Return tt, with_log (log w ++ insert_events self c t prefixes chunk_size) w).
Proof.
  intros Hopen Hok Hchunk. unfold insert_rows, insert_events, insert_statement.
  destruct chunk_size as [K|].
  - destruct (Z.eqb_spec K 0) as [->|_]; [done|].
    apply (for_each_run c (fun index => insert_ev c _ (chunk self K index))); [done|].
    intros j x _. by apply Hok.
  - apply on_connection_run; [done|by apply Hok].
Qed.

Lemma insert_stage_run self c t kw w :
  connection_id c ∉ closed w -> never_refuses_writes env -> chunk_size kw <> Some 0 ->
  when (do_insert kw) (insert_rows env self c t (prefixes kw) (chunk_size kw)) w
  = (Return tt,
     with_log (log w ++ (if do_insert kw
                         then insert_events self c t (prefixes kw) (chunk_size kw)
                         else [])) w).
Proof.
  intros Hopen Hok Hchunk. destruct (do_insert kw); simpl.
  - by apply insert_rows_run.
  - by rewrite app_nil_r, with_log_log.
Qed.

Lemma to_sql_work_run self c tn kw w t w1 :
  make_sql_table env self tn (Some (dialect_name (engine c))) (db_schema kw)
    (constraints kw) (unique_constraint kw) (min_col_len kw) (col_len_multiplier kw) w
  = (Return t, w1) ->
  connection_id c ∉ closed w1 -> never_refuses_writes env -> chunk_size kw <> Some 0 ->
  to_sql_work env self c tn kw w
  = (Return t, with_log (log w1 ++ to_sql_events self c t kw) w1).
Proof.
  intros Hmk Hopen Hok Hchunk. unfold to_sql_work, to_sql_events.
  erewrite bind_Return by exact Hmk.
  erewrite bind_Return by (by apply create_stage_run).
  erewrite bind_Return by (by apply insert_stage_run).
  unfold_monad. simpl. by rewrite <- !app_assoc.
Qed.

(** With a live connection passed in, supported column types, a database
    that accepts every write and a chunk size other than zero, [to_sql]
    returns the table [make_sql_table] built for the connection's dialect,
    and what it sent is, in this order: the DROP (only with both [create]
    and [overwrite]), the CREATE (only with [create]), and the inserts
    (only with [insert]), each insert under the statement whose prefixes
    are the ones given, in their order. *)
Theorem to_sql_sends_drop_create_insert
    (self : AgateTable) (c : Connection) (table_name : string)
    (kw : to_sql_kwargs) (w : World) :
  type_map_inv (SQL_TYPE_MAP_now w) ->
  first_without_entry self = None ->
  connection_id c ∉ closed w ->
  never_refuses_writes env ->
  chunk_size kw <> Some 0 ->
  exists t w',
    make_sql_table env self table_name (Some (dialect_name (engine c))) (db_schema kw)
      (constraints kw) (unique_constraint kw) (min_col_len kw) (col_len_multiplier kw) w
    = (Return t, w')
    /\ to_sql env self (Existing c) table_name kw w
       = (Return t, with_log (log w ++ to_sql_events self c t kw) w')
    /\ insert_prefixes (insert_statement t (prefixes kw)) = prefixes kw.
Proof.
  intros Hinv Hsup Hopen Hok Hchunk.
  destruct (make_sql_table_Return env self table_name (Some (dialect_name (engine c)))
              (db_schema kw) (constraints kw) (unique_constraint kw) (min_col_len kw)
              (col_len_multiplier kw) w Hinv Hsup) as [t Hmk].
  eexists _, _. split; [exact Hmk|]. split.
  - rewrite to_sql_shape, resolve_bind.
    erewrite bind_Return by (by eapply to_sql_work_run).
    done.
  - assert (Hgen : forall ps stmt, insert_prefixes (fold_left prefix_with ps stmt)
                                   = insert_prefixes stmt ++ ps).
    { induction ps as [|p ps IH]; intros stmt; simpl; [by rewrite app_nil_r|].
      rewrite IH. simpl. by rewrite <- app_assoc. }
    unfold insert_statement. by rewrite Hgen.
Qed.

Lemma take_range (j : nat) n :
  (j <= Z.to_nat n)%nat -> take j (range n) = Z.of_nat <$> seq 0 j.
Proof.
  intros Hj. unfold range. rewrite <- fmap_take, take_seq. do 2 f_equal. lia.
Qed.

Lemma range_lookup (j : nat) n x :
  range n !! j = Some x -> x = Z.of_nat j /\ (j < Z.to_nat n)%nat.
Proof.
  unfold range. rewrite list_lookup_fmap.
  destruct (seq 0 (Z.to_nat n) !! j) as [i|] eqn:Hi; [|done].
  apply lookup_seq in Hi as [-> Hlt]. by intros [= <-].
Qed.

(** Batches are sent one after another until one is refused: when the
    database accepts batches [0 .. k-1] and refuses batch [k], the insert
    block ends in the error of batch [k], having sent batches [0 .. k] and
    nothing after them; the batches already accepted are not undone. *)
Theorem insert_stops_at_the_first_refusal
    (self : AgateTable) (c : Connection) (sql_table : SqlTable)
    (prefixes : list string) (K : Z) (k : nat) (w : World) :
  K <> 0 ->
  connection_id c ∉ closed w ->
  let n := (Z.of_nat (length (rows self)) - 1) `div` K + 1 in
  let batch (i : nat) :=
    insert_ev c (insert_statement sql_table prefixes) (chunk self K (Z.of_nat i)) in
  Z.of_nat k < n ->
  (forall j : nat, (j < k)%nat ->
     raises env (log w ++ (batch <$> seq 0 j)) (batch j) = false) ->
  raises env (log w ++ (batch <$> seq 0 k)) (batch k) = true ->
  insert_rows env self c sql_table prefixes (Some K) w
  = (Raise (DatabaseError (batch k)), with_log (log w ++ (batch <$> seq 0 (S k))) w).
Proof.
  intros HK Hopen n batch Hk Hok Hbad. unfold insert_rows.
  destruct (Z.eqb_spec K 0) as [?|_]; [done|]. fold n.
  set (f := fun index => insert_ev c (fold_left prefix_with prefixes (mkInsert sql_table []))
                           (chunk self K index)).
  assert (Hf : forall j : nat, (j <= Z.to_nat n)%nat ->
                 f <$> take j (range n) = batch <$> seq 0 j).
  { intros j Hj. rewrite take_range by done. by rewrite <- list_fmap_compose. }
  rewrite (for_each_fail c f (range n) k (Z.of_nat k)).
  - by rewrite Hf by lia.
  - done.
  - unfold range. rewrite list_lookup_fmap, lookup_seq_lt by lia. done.
  - intros j y Hj Hy. apply range_lookup in Hy as [-> _].
    rewrite Hf by lia. by apply Hok.
  - by rewrite Hf by lia.
Qed.

(** A chunk size of zero is a division by zero, met only when the insert
    block is reached: with a live connection and a database that accepts
    writes, [to_sql] has by then sent the DROP and CREATE it was asked for,
    so the table exists and is empty when [ZeroDivisionError] is raised;
    with [insert] disabled the chunk size is never looked at. *)
Theorem zero_chunk_size_fails_after_create
    (self : AgateTable) (c : Connection) (table_name : string)
    (kw : to_sql_kwargs) (w : World) :
  type_map_inv (SQL_TYPE_MAP_now w) ->
  first_without_entry self = None ->
  connection_id c ∉ closed w ->
  never_refuses_writes env ->
  chunk_size kw = Some 0 ->
  do_insert kw = true ->
  exists t w',
    make_sql_table env self table_name (Some (dialect_name (engine c))) (db_schema kw)
      (constraints kw) (unique_constraint kw) (min_col_len kw) (col_len_multiplier kw) w
    = (Return t, w')
    /\ to_sql env self (Existing c) table_name kw w
       = (Raise ZeroDivisionError,
          with_log (log w
                    ++ (if create kw && overwrite kw then [drop_ev c t true] else [])
                    ++ (if create kw
                        then [create_ev c t (create_if_not_exists kw)] else []))
                   w').
Proof.
  intros Hinv Hsup Hopen Hok Hchunk Hins.
  destruct (make_sql_table_Return env self table_name (Some (dialect_name (engine c)))
              (db_schema kw) (constraints kw) (unique_constraint kw) (min_col_len kw)
              (col_len_multiplier kw) w Hinv Hsup) as [t Hmk].
  eexists _, _. split; [exact Hmk|].
  rewrite to_sql_shape, resolve_bind.
  erewrite bind_Raise; [reflexivity|].
  unfold to_sql_work.
  erewrite bind_Return by exact Hmk.
  erewrite bind_Return by (by apply create_stage_run).
  erewrite bind_Raise; [reflexivity|].
  rewrite Hins, Hchunk. reflexivity.
Qed.

Lemma negative_chunk_is_empty self K index :
  K < 0 ->
  index ∈ range ((Z.of_nat (length (rows self)) - 1) `div` K + 1) ->
  chunk self K index = [].
Proof.
  intros HK Hin. apply list_elem_of_lookup in Hin as [j Hj].
  apply range_lookup in Hj as [-> Hlt].
  set (N := Z.of_nat (length (rows self))) in *.
  assert (HN : 0 <= N) by lia.
  pose proof (Z.div_mod (N - 1) K ltac:(lia)) as Hdm.
  pose proof (Z.mod_neg_bound (N - 1) K HK) as Hb.
  assert (Hsmall : N <= 1) by nia.
  unfold chunk, slice, clamp_index. fold N.
  destruct (Z.ltb_spec N ((Z.of_nat j + 1) * K)); [nia|].
  destruct (Z.ltb_spec ((Z.of_nat j + 1) * K) 0); [|nia].
  replace (Z.to_nat _) with 0%nat; [done|].
  destruct (Z.ltb_spec (Z.of_nat j * K) 0); nia.
Qed.


End Writes.

(** ** The life of an owned engine *)

Section Lifecycle.

Variable env : Env.

Lemma fresh_connection_is_open w :
  closed w ⊆ opened_connections w -> owned_connection w ∉ closed w.
Proof.
  intros Hsub Hin. apply (is_fresh (opened_connections w)). by apply Hsub.
Qed.

(** Given a connection string, supported column types, a database on which
    nothing raises and a chunk size other than zero, [to_sql] creates one
    engine on that URL, with [fast_executemany] exactly for the scheme
    mssql+pyodbc, connects once, sends its DROP, CREATE and inserts on that
    connection, then closes the connection and disposes the engine, in this
    order, and returns the synthesized table. *)
Theorem to_sql_opens_writes_and_releases
    (self : AgateTable) (url table_name : string) (kw : to_sql_kwargs) (w : World) :
  type_map_inv (SQL_TYPE_MAP_now w) ->
  first_without_entry self = None ->
  closed w ⊆ opened_connections w ->
  (forall history ev, raises env history ev = false) ->
  chunk_size kw <> Some 0 ->
  let fast := bool_decide (urlsplit_scheme env url = "mssql+pyodbc") in
  let e := new_engine env url fast w in
  let c := new_connection env url fast w in
  exists t w',
    to_sql env self (ConnectionString url) table_name kw w = (Return t, w')
    /\ log w' = log w ++ [create_engine_ev e; connect_ev c]
                      ++ to_sql_events self c t kw
                      ++ [close_ev c; dispose_ev e]
    /\ engine_url e = url
    /\ released_own w w'.
Proof.
  intros Hinv Hsup Hclosed Hok Hchunk fast e c.
  destruct (make_sql_table_Return env self table_name (Some (dialect_name (engine c)))
              (db_schema kw) (constraints kw) (unique_constraint kw) (min_col_len kw)
              (col_len_multiplier kw) (after_opening env url fast w) Hinv Hsup) as [t Hmk].
  assert (Hrun : exists w', to_sql env self (ConnectionString url) table_name kw w
                            = (Return t, w')
            /\ log w' = log w ++ [create_engine_ev e; connect_ev c]
                              ++ to_sql_events self c t kw ++ [close_ev c; dispose_ev e]).
  { rewrite to_sql_shape, resolve_bind, open_engine_and_connection. fold fast e c.
    rewrite !Hok.
    erewrite bind_Return.
    2:{ eapply to_sql_work_run; [exact Hmk| |by intros ? ? _|done].
        simpl. by apply fresh_connection_is_open. }
    unfold try_finally, release, close, dispose, attempt. unfold_monad. simpl.
    rewrite !Hok. simpl. eexists. split; [reflexivity|]. simpl.
    by rewrite <- !app_assoc. }
  destruct Hrun as (w' & Hrun & Hlog).
  exists t, w'. split; [done|]. split; [done|]. split; [done|].
  by eapply to_sql_releases.
Qed.

(** When something raises between the opening of an owned engine and the
    [try] at the end of [to_sql] or [from_sql], the exception leaves the
    function as it is, and the connection and the engine the call opened
    are neither closed nor disposed. *)
Theorem failure_before_the_try_releases_nothing
    (self : AgateTable) (url table_name : string) (kw : to_sql_kwargs)
    (w w2 : World) (x : Exn) :
  let fast := bool_decide (urlsplit_scheme env url = "mssql+pyodbc") in
  let c := new_connection env url fast w in
  let w1 := after_opening env url fast w in
  opens_cleanly env url fast w ->
  (to_sql_work env self c table_name kw w1 = (Raise x, w2) ->
     to_sql env self (ConnectionString url) table_name kw w = (Raise x, w2)
     /\ kept_own w w2)
  /\ (from_sql_work env c table_name w1 = (Raise x, w2) ->
      from_sql env (ConnectionString url) table_name w = (Raise x, w2)
      /\ kept_own w w2).
Proof.
  intros fast c w1 [H1 H2]. split; intros Hwork.
  - rewrite to_sql_shape, resolve_bind, open_engine_and_connection.
    fold fast. rewrite H1, H2. fold c w1.
    erewrite bind_Raise by exact Hwork. split; [done|].
    pose proof (quiet_to_sql_work env self c table_name kw w1) as Hq.
    rewrite Hwork in Hq. destruct Hq as (He & Hc & Hcl & Hd & _). simpl in *.
    unfold kept_own, opened_own. by rewrite He, Hc, Hcl, Hd.
  - rewrite from_sql_shape, resolve_bind, open_engine_and_connection.
    fold fast. rewrite H1, H2. fold c w1.
    erewrite bind_Raise by exact Hwork. split; [done|].
    pose proof (quiet_from_sql_work env c table_name w1) as Hq.
    rewrite Hwork in Hq. destruct Hq as (He & Hc & Hcl & Hd & _). simpl in *.
    unfold kept_own, opened_own. by rewrite He, Hc, Hcl, Hd.
Qed.

End Lifecycle.

(** ** Reading a table *)

Section Reads.

Variable env : Env.

Lemma infer_column_value c w dt c' w' :
  infer_column c w = (Return (dt, c'), w') ->
  w' = w /\ c' = selected_column c
  /\ Some dt = Instance_of <$> tabular_kind (py_type_of c).
Proof.
  unfold infer_column, selected_column.
  destruct (py_type_of c); simpl; intros [= <- <- <-]; done.
Qed.

Lemma infer_columns_value cols w w' names types cols' :
  infer_columns cols w = (Return (names, types, cols'), w') ->
  w' = w /\ names = rc_name <$> cols
  /\ Some <$> types = (fun c => Instance_of <$> tabular_kind (py_type_of c)) <$> cols
  /\ cols' = selected_column <$> cols.
Proof.
  revert names types cols'.
  induction cols as [|c cols IH]; intros names types cols'; simpl.
  - intros [= <- <- <- <-]. by repeat split.
  - unfold_monad.
    destruct (infer_column c w) as [[[dt c1]|e] w1] eqn:Hc; [|discriminate].
    apply infer_column_value in Hc as (-> & -> & Hdt).
    destruct (infer_columns cols w) as [[[[ns ts] cs]|e] w2] eqn:Hrest; [|discriminate].
    intros [= <- <- <- <-].
    destruct (IH _ _ _ eq_refl) as (-> & -> & Hts & ->).
    split; [reflexivity|]. split; [reflexivity|]. split; [|reflexivity].
    rewrite !fmap_cons, Hts, Hdt. reflexivity.
Qed.

(** A successful pass of the inference loop keeps the columns' names in
    their order, gives each column the agate type of its Python type, and
    hands on the reflected columns with [asdecimal] set on exactly the
    float columns. *)
Theorem inference_keeps_names_and_flags_floats
    (cols : list ReflectedColumn) (w w' : World)
    (names : list string) (types : list DataType) (cols' : list ReflectedColumn) :
  infer_columns cols w = (Return (names, types, cols'), w') ->
  w' = w
  /\ names = rc_name <$> cols
  /\ Some <$> types = (fun c => Instance_of <$> tabular_kind (py_type_of c)) <$> cols
  /\ cols' = selected_column <$> cols
  /\ (forall c, c ∈ cols ->
        asdecimal (selected_column c) = asdecimal c || bool_decide (py_type_of c = py_float)).
Proof.
  intros Hrun. apply infer_columns_value in Hrun as (H1 & H2 & H3 & H4).
  repeat (split; [assumption|]). intros c _.
  unfold selected_column, set_asdecimal.
  case_bool_decide; simpl; [by rewrite orb_true_r|by rewrite orb_false_r].
Qed.

(** A successful [from_sql] on a connection passed in reflects the table,
    selects all of it and reads the rows, in this order and nothing else;
    the table it returns has the reflected columns' names, their agate
    types, and the rows the select returned. *)
Theorem from_sql_reads_the_whole_table
    (c : Connection) (table_name : string) (w w' : World) (table : AgateTable) :
  from_sql env (Existing c) table_name w = (Return table, w') ->
  let cols := reflected_columns env (log w) c table_name in
  let select := select_ev c table_name (selected_column <$> cols) in
  log w' = log w ++ [autoload_ev c table_name; select; read_rows_ev c]
  /\ column_names table = rc_name <$> cols
  /\ Some <$> column_types table
     = (fun c => Instance_of <$> tabular_kind (py_type_of c)) <$> cols
  /\ rows table = result_rows env (log w ++ [autoload_ev c table_name]) select.
Proof.
  intros Hrun cols select. revert Hrun.
  unfold from_sql, get_engine_and_connection. unfold_monad.
  destruct (on_connection env c _ w) as [[[]|e] w1] eqn:Hload; [|done].
  apply on_connection_log in Hload as Hlog1.
  destruct (infer_columns _ w1) as [[[[names types] cols']|e] w2] eqn:Hinf; [|done].
  apply infer_columns_value in Hinf as (-> & -> & Hts & ->).
  unfold execute. unfold_monad.
  destruct (on_connection env c _ w1) as [[[]|e] w3] eqn:Hsel; [|done].
  apply on_connection_log in Hsel as Hlog3.
  unfold try_finally, agate_Table, release. unfold_monad. simpl.
  destruct (on_connection env c (read_rows_ev c) w3) as [[[]|e] w4] eqn:Hread; [|done].
  apply on_connection_log in Hread as Hlog4.
  intros [= <- <-]. simpl. fold cols in Hts |- *.
  rewrite Hlog4, Hlog3, Hlog1. rewrite <- !app_assoc. done.
Qed.

End Reads.

(** ** Running queries *)

Lemma split_not_nil sep s : split sep s <> [].
Proof.
  destruct s as [|c s]; simpl; [done|].
  destruct (Ascii.eqb c sep); [done|]. by destruct (split sep s).
Qed.

Lemma split_no_separator sep s :
  Forall (fun piece => contains sep piece = false) (split sep s).
Proof.
  induction s as [|c s IH]; simpl; [by repeat constructor|].
  destruct (Ascii.eqb c sep) eqn:Hc; [by constructor|].
  destruct (split sep s) as [|piece pieces]; [by repeat constructor; simpl; rewrite Hc|].
  inversion IH as [|? ? Hp Hps]; subst. constructor; [|done]. simpl. by rewrite Hc.
Qed.

Lemma join_split sep s : join (String sep "") (split sep s) = s.
Proof.
  induction s as [|c s IH]; simpl; [done|].
  destruct (Ascii.eqb_spec c sep) as [->|Hne].
  - pose proof (split_not_nil sep s) as Hnil.
    destruct (split sep s) as [|piece pieces]; [done|]. simpl in *. by rewrite IH.
  - pose proof (split_not_nil sep s) as Hnil.
    destruct (split sep s) as [|piece pieces]; [done|].
    destruct pieces; simpl in *; by rewrite <- IH.
Qed.

Lemma statements_cons q qs :
  List.filter (fun q => negb (String.eqb q "")) (q :: qs)
  = match q with
    | EmptyString => List.filter (fun q => negb (String.eqb q "")) qs
    | String _ _ => q :: List.filter (fun q => negb (String.eqb q "")) qs
    end.
Proof. by destruct q. Qed.

Section MoreQueries.

Variable env : Env.

Lemma quiet_run_queries c qs rows :
  Forall (fun q => contains ";" q = false) qs ->
  quiet well_cut (run_queries env c qs rows).
Proof.
  intros Hqs. revert rows. induction Hqs as [|q qs Hq _ IH]; intros rows; simpl.
  - apply quiet_ret.
  - destruct q as [|a q]; [apply IH|].
    apply quiet_bind; [|intros cur; apply IH].
    apply quiet_execute. unfold well_cut. by rewrite Hq.
Qed.

Lemma resolve_Absent_trace {A} (P : Event -> bool)
    (K : option Engine * Connection -> M A) w :
  (forall e, P (create_engine_ev e) = true) ->
  (forall c, P (connect_ev c) = true) ->
  (forall c, quiet P (K (None, c))) ->
  exists evs, log ((get_engine_and_connection env Absent ≫= K) w).2 = log w ++ evs
              /\ Forall (fun ev => P ev = true) evs.
Proof.
  intros He Hc HK. rewrite resolve_bind, open_engine_and_connection.
  destruct (raises env (log w) _); simpl.
  { eexists. split; [done|]. by repeat constructor. }
  destruct (raises env (log w ++ _) _); simpl.
  { eexists. split; [done|]. by repeat constructor. }
  destruct (HK (new_connection env "sqlite:///:memory:" false w)
               (after_opening env "sqlite:///:memory:" false w))
    as (_ & _ & _ & _ & evs & Hl & Hev).
  rewrite Hl. simpl. eexists. rewrite <- app_assoc. split; [done|].
  apply Forall_app. split; [|done]. by repeat constructor.
Qed.


Lemma run_queries_result c qs rows w r w' :
  run_queries env c qs rows w = (Return r, w') ->
  let sent := List.filter (fun q => negb (String.eqb q "")) qs in
  log w' = log w ++ (exec_driver_sql_ev c <$> sent)
  /\ (sent = [] -> r = rows)
  /\ (forall init q, sent = init ++ [q] ->
        let history := log w ++ (exec_driver_sql_ev c <$> init) in
        r = Some (mkCursor c (result_rows env history (exec_driver_sql_ev c q))
                           (result_keys env history (exec_driver_sql_ev c q)))).
Proof.
  revert rows w. induction qs as [|q qs IH]; intros rows w.
  - simpl. intros [= <- <-]. rewrite app_nil_r. split; [done|]. split; [done|].
    intros init q Hq. by destruct init.
  - intros Hrun sent. unfold sent. rewrite statements_cons.
    destruct q as [|a q]; [by apply IH|].
    simpl in Hrun. unfold execute in Hrun. unfold_monad.
    destruct (on_connection env c _ w) as [[[]|e] w1] eqn:Hq; [|done].
    apply on_connection_log in Hq as Hlog.
    apply IH in Hrun as (Hl & Hnone & Hlast).
    split; [|split].
    + rewrite Hl, Hlog. by rewrite <- app_assoc.
    + done.
    + intros init q' Hsent. destruct init as [|s0 init]; simpl in Hsent.
      * injection Hsent as <- Hnil. rewrite app_nil_r.
        rewrite (Hnone Hnil). done.
      * injection Hsent as <- Hrest. apply Hlast in Hrest. simpl in Hrest.
        rewrite Hrest, Hlog. simpl. by rewrite <- app_assoc.
Qed.

(** A [sql_query] that returns has opened an in-memory database, written
    the table to it with the default settings, sent the non-empty pieces of
    the text in their order and read the rows of the last one: the table it
    returns has the rows and the column names of that last statement's
    result, and the results of the statements before it are dropped. *)
Theorem sql_query_returns_the_last_result
    (self : AgateTable) (query table_name : string) (w w' : World) (table : AgateTable) :
  sql_query env self query table_name w = (Return table, w') ->
  let c := new_connection env "sqlite:///:memory:" false w in
  let w1 := after_opening env "sqlite:///:memory:" false w in
  let send := exec_driver_sql_ev c in
  exists t w2 init q,
    to_sql env self (Existing c) table_name to_sql_defaults w1 = (Return t, w2)
    /\ statements query = init ++ [q]
    /\ log w' = log w2 ++ (send <$> statements query) ++ [read_rows_ev c]
    /\ rows table = result_rows env (log w2 ++ (send <$> init)) (send q)
    /\ column_names table = result_keys env (log w2 ++ (send <$> init)) (send q).
Proof.
  intros Hrun c w1 send. revert Hrun. unfold sql_query.
  rewrite resolve_bind, open_engine_and_connection.
  destruct (raises env (log w) _); [done|].
  destruct (raises env (log w ++ _) _); [done|].
  fold c w1. unfold_monad.
  destruct (to_sql env self (Existing c) table_name to_sql_defaults w1)
    as [[t|e] w2] eqn:Hwrite; [|done].
  destruct (run_queries env c (split ";" query) None w2) as [[r|e] w3] eqn:Hq; [|done].
  apply run_queries_result in Hq as (Hlog & Hnone & Hlast).
  fold (statements query) in Hlog, Hnone, Hlast.
  destruct r as [cur|]; [|done].
  destruct (statements query) as [|s ss] eqn:Hst using rev_ind.
  { by specialize (Hnone eq_refl). }
  clear IHss. specialize (Hlast _ _ eq_refl). simpl in Hlast. injection Hlast as ->.
  unfold agate_Table. unfold_monad. simpl.
  destruct (on_connection env c (read_rows_ev c) w3) as [[[]|e] w4] eqn:Hread; [|done].
  apply on_connection_log in Hread as Hlog4.
  intros [= <- <-]. exists t, w2, ss, s. simpl.
  split; [done|]. split; [done|]. split; [|done].
  rewrite Hlog4, Hlog. by rewrite <- app_assoc.
Qed.

End MoreQueries.

(** ** Queries on a new database, and statements without one *)

Lemma undouble_pair c s :
  undouble c (String c (String c s)) = String c (undouble c s).
Proof. simpl. by rewrite Ascii.eqb_refl. Qed.

Lemma undouble_other c a s :
  a <> c -> undouble c (String a s) = String a (undouble c s).
Proof.
  intros Hne. apply Ascii.eqb_neq in Hne. destruct s as [|b s]; [done|].
  simpl. by rewrite Hne.
Qed.

Lemma undouble_replace c s : undouble c (replace c (String c (String c "")) s) = s.
Proof.
  induction s as [|a s IH]; [done|]. cbn [replace].
  destruct (Ascii.eqb_spec a c) as [->|Hne].
  - change (undouble c (String c (String c (replace c (String c (String c "")) s)))
            = String c s).
    by rewrite undouble_pair, IH.
  - by rewrite undouble_other, IH.
Qed.

Lemma length_replace c s :
  String.length (replace c (String c (String c "")) s)
  = (String.length s + count c s)%nat.
Proof.
  induction s as [|a s IH]; [done|]. cbn [replace count].
  destruct (Ascii.eqb a c).
  - change (S (S (String.length (replace c (String c (String c "")) s)))
            = (S (String.length s) + (1 + count c s))%nat).
    rewrite IH. lia.
  - change (S (String.length (replace c (String c (String c "")) s))
            = (S (String.length s) + (0 + count c s))%nat).
    rewrite IH. lia.
Qed.

Section NewDatabase.

Variable env : Env.

Lemma on_connection_Return c ev w w' :
  on_connection env c ev w = (Return tt, w') -> w' = with_log (log w ++ [ev]) w.
Proof.
  unfold on_connection, attempt. case_bool_decide; [done|].
  destruct (raises env (log w) ev); [done|]. by intros [= <-].
Qed.


Lemma make_sql_table_world table tn dialect sch cons uc mcl clm w :
  type_map_inv (SQL_TYPE_MAP_now w) ->
  (make_sql_table env table tn dialect sch cons uc mcl clm w).2
  = with_type_map (dialect_type_map dialect) w.
Proof.
  intros Hinv. unfold make_sql_table.
  erewrite bind_Return by (by apply set_dialect_types_run).
  destruct (build_sql_table _ _ _ _ _ _ _ _ _ _) as [r u] eqn:Hb.
  by apply build_sql_table_pure in Hb as ->.
Qed.

Lemma make_sql_table_again table tn dialect sch cons uc mcl clm w :
  type_map_inv (SQL_TYPE_MAP_now w) ->
  let call := make_sql_table env table tn dialect sch cons uc mcl clm in
  call (call w).2 = call w.
Proof.
  intros Hinv call.
  pose proof (make_sql_table_world table tn dialect sch cons uc mcl clm w Hinv) as Hw.
  pose proof (make_sql_table_world table tn dialect sch cons uc mcl clm
                (with_type_map (dialect_type_map dialect) w)
                (dialect_type_map_inv dialect)) as Hw2.
  fold call in Hw, Hw2.
  assert (Hr : (call (with_type_map (dialect_type_map dialect) w)).1 = (call w).1).
  { unfold call, make_sql_table.
    erewrite (bind_Return _ _ w) by (by apply set_dialect_types_run).
    erewrite bind_Return
      by (apply set_dialect_types_run; apply dialect_type_map_inv).
    by apply build_sql_table_agree. }
  rewrite Hw.
  destruct (call (with_type_map (dialect_type_map dialect) w)) as [r2 u2].
  destruct (call w) as [r1 u1]. simpl in *. subst. reflexivity.
Qed.

Variable registry_has : string -> bool.
Variable compile : SqlTable -> option string -> option string.
Variable strip : string -> string.

(** [to_sql_create_statement] sends nothing to any database and opens
    nothing: all it changes is the module-level type dictionary.  Called
    again with the same arguments it gives the same result and changes
    nothing more; and a statement it returns is the stripped output of the
    compiler with one semicolon after it. *)
Theorem create_statement_is_repeatable
    (self : AgateTable) (table_name : string) (dialect db_schema : option string)
    (constraints : bool) (unique_constraint : list string) (w : World) :
  type_map_inv (SQL_TYPE_MAP_now w) ->
  let call := to_sql_create_statement env registry_has compile strip self table_name
                dialect db_schema constraints unique_constraint in
  (call w).2 = with_type_map (dialect_type_map dialect) w
  /\ call (call w).2 = call w
  /\ (forall text, (call w).1 = Return (Statement text) ->
        exists t sql_dialect ddl,
          compile t sql_dialect = Some ddl
          /\ text = String.append (strip ddl) ";"
          /\ (sql_dialect = None \/ sql_dialect = dialect)).
Proof.
  intros Hinv call.
  pose proof (make_sql_table_world self table_name dialect db_schema constraints
                unique_constraint 1 1 w Hinv) as Hworld.
  pose proof (make_sql_table_again self table_name dialect db_schema constraints
                unique_constraint 1 1 w Hinv) as Hagain.
  simpl in Hagain. unfold call, to_sql_create_statement. unfold_monad.
  rewrite <- Hworld.
  destruct (make_sql_table env self table_name dialect db_schema constraints
              unique_constraint 1 1 w) as [[t|e] w1] eqn:Hmk; simpl in *.
  - set (truthy := match dialect with Some (String _ _) => true | _ => false end).
    destruct (truthy && negb (registry_has (default "" dialect))) eqn:Hreg; simpl.
    + split; [done|]. split; [|done]. rewrite Hagain. simpl. by rewrite ?Hreg.
    + destruct (compile t (if truthy then dialect else None)) as [ddl|] eqn:Hc; simpl.
      * split; [done|]. split.
        -- rewrite Hagain. simpl. by rewrite ?Hreg, ?Hc.
        -- intros text [= <-]. exists t, (if truthy then dialect else None), ddl.
           split; [done|]. split; [done|]. destruct truthy; auto.
      * split; [done|]. split; [|done]. rewrite Hagain. simpl. by rewrite ?Hreg, ?Hc.
  - split; [done|]. split; [|done]. by rewrite Hagain.
Qed.

End NewDatabase.

(** * Properties of the GeoJSON converter *)

Lemma add_fields_spec fs props :
  (exists more, add_fields fs props = fs ++ more)
  /\ (NoDup fs -> NoDup (add_fields fs props))
  /\ (forall k, k ∈ add_fields fs props <-> k ∈ fs \/ k ∈ props).
Proof.
  unfold add_fields. revert fs. induction props as [|prop props IH]; intros fs; simpl.
  - split; [exists []; by rewrite app_nil_r|]. split; [done|].
    intros k. rewrite elem_of_nil. tauto.
  - case_bool_decide as Hin.
    + destruct (IH fs) as (Hpre & Hnd & Hmem). split; [done|]. split; [done|].
      intros k. rewrite Hmem, elem_of_cons.
      split; [tauto|]. intros [?|[->|?]]; auto.
    + destruct (IH (fs ++ [prop])) as ([more Hpre] & Hnd & Hmem). split; [|split].
      * exists (prop :: more). rewrite Hpre. by rewrite <- app_assoc.
      * intros Hfs. apply Hnd. apply NoDup_app. split; [done|]. split.
        -- intros x Hx Hx'. apply list_elem_of_singleton in Hx' as ->. done.
        -- apply NoDup_singleton.
      * intros k. rewrite Hmem, elem_of_app, list_elem_of_singleton, elem_of_cons. tauto.
Qed.

Section GeoJSONProperties.

Variable dumps : json -> string.

Lemma parse_feature_fields fs feature p fs' :
  parse_feature dumps fs feature = Done (p, fs') ->
  fs' = add_fields fs (feature_keys feature)
  /\ forall fs2, parse_feature dumps fs2 feature
                 = Done (p, add_fields fs2 (feature_keys feature)).
Proof.
  unfold parse_feature, feature_keys.
  destruct (get feature "properties" (JObject [])) as [props|e]; simpl; [|done].
  destruct (keys props) as [ks|e]; simpl; [|done].
  destruct (match feature with JObject pairs => getitem pairs "geometry" | _ => _ end)
    as [g|e]; simpl; [|done].
  destruct (if truth g then get g "type" JNull else Done JNull) as [gt|e]; simpl; [|done].
  destruct (if is_str gt "Point" then _ else _) as [[lon lat]|e]; simpl; [|done].
  destruct (get feature "id" JNull) as [gid|e]; simpl; [|done].
  intros [= <- <-]. done.
Qed.

Lemma parse_feature_Failed fs feature e :
  parse_feature dumps fs feature = Failed e ->
  forall fs2, parse_feature dumps fs2 feature = Failed e.
Proof.
  unfold parse_feature.
  destruct (get feature "properties" (JObject [])) as [props|e1]; simpl; [|done].
  destruct (keys props) as [ks|e1]; simpl; [|done].
  destruct (match feature with JObject pairs => getitem pairs "geometry" | _ => _ end)
    as [g|e1]; simpl; [|done].
  destruct (if truth g then get g "type" JNull else Done JNull) as [gt|e1]; simpl; [|done].
  destruct (if is_str gt "Point" then _ else _) as [[lon lat]|e1]; simpl; [|done].
  destruct (get feature "id" JNull) as [gid|e1]; simpl; done.
Qed.

Lemma parse_feature_not_root_error fs feature e :
  parse_feature dumps fs feature = Failed e -> is_root_error e = false.
Proof.
  unfold parse_feature.
  destruct (get feature "properties" (JObject [])) as [props|e1] eqn:Hp; simpl.
  2:{ intros [= <-]. destruct feature; by simplify_eq/=. }
  destruct (keys props) as [ks|e1] eqn:Hk; simpl.
  2:{ intros [= <-]. destruct props; by simplify_eq/=. }
  destruct (match feature with JObject pairs => getitem pairs "geometry" | _ => _ end)
    as [g|e1] eqn:Hg; simpl.
  2:{ intros [= <-]. destruct feature; simplify_eq/=; try done.
      unfold getitem in Hg. destruct (dict_lookup "geometry" pairs); by simplify_eq. }
  destruct (if truth g then get g "type" JNull else Done JNull) as [gt|e1] eqn:Ht; simpl.
  2:{ intros [= <-]. destruct (truth g); [|done]. destruct g; by simplify_eq/=. }
  destruct (if is_str gt "Point" then _ else _) as [[lon lat]|e1] eqn:Hc; simpl.
  2:{ intros [= <-]. destruct (is_str gt "Point"); [|done].
      destruct g as [| | | | | | |gp]; try done.
      destruct (dict_lookup "coordinates" gp) as [co|]; [|done].
      unfold first_two in Hc.
      destruct co as [| | | | |cs|[|x [|y items]]|]; simplify_eq/=; try done.
      by destruct (characters cs) as [|? [|? ?]]; simplify_eq. }
  destruct (get feature "id" JNull) as [gid|e1] eqn:Hi; simpl; [done|].
  intros [= <-]. destruct feature; by simplify_eq/=.
Qed.

Lemma parse_features_Done fs items ps fs' :
  parse_features dumps fs items = Done (ps, fs') ->
  length ps = length items
  /\ fs' = fold_left (fun acc x => add_fields acc (feature_keys x)) items fs
  /\ forall (i : nat) item, items !! i = Some item ->
       exists p, ps !! i = Some p
                 /\ parse_feature dumps [] item = Done (p, add_fields [] (feature_keys item)).
Proof.
  revert fs ps. induction items as [|x items IH]; intros fs ps; simpl.
  - intros [= <- <-]. by repeat split.
  - destruct (parse_feature dumps fs x) as [[p f1]|e] eqn:Hx; simpl; [|done].
    destruct (parse_features dumps f1 items) as [[ps' f2]|e] eqn:Hrest; simpl; [|done].
    intros [= <- <-]. apply parse_feature_fields in Hx as [-> Hany].
    destruct (IH _ _ Hrest) as (Hlen & Hfs & Hlook).
    split; [simpl; by rewrite Hlen|]. split; [done|].
    intros [|i] item Hi; simpl in *; [|eauto].
    injection Hi as <-. eauto.
Qed.

Lemma parse_features_Failed fs items e :
  parse_features dumps fs items = Failed e ->
  exists pre feature post,
    items = pre ++ feature :: post
    /\ parse_feature dumps [] feature = Failed e
    /\ Forall (fun x => exists r, parse_feature dumps [] x = Done r) pre.
Proof.
  revert fs. induction items as [|x items IH]; intros fs; simpl; [done|].
  destruct (parse_feature dumps fs x) as [[p f1]|e1] eqn:Hx; simpl.
  - destruct (parse_features dumps f1 items) as [[ps' f2]|e2] eqn:Hrest; simpl; [done|].
    intros [= <-]. destruct (IH _ Hrest) as (pre & feature & post & -> & Hf & Hpre).
    exists (x :: pre), feature, post. split; [done|]. split; [done|].
    constructor; [|done]. apply parse_feature_fields in Hx as [_ Hany]. eauto.
  - intros [= <-]. exists [], x, items. split; [done|]. split; [|constructor].
    by eapply parse_feature_Failed.
Qed.

Lemma fold_add_fields_spec items fs :
  let fields := fold_left (fun acc x => add_fields acc (feature_keys x)) items fs in
  (NoDup fs -> NoDup fields)
  /\ (forall k, k ∈ fields <-> k ∈ fs \/ exists x, x ∈ items /\ k ∈ feature_keys x).
Proof.
  revert fs. induction items as [|x items IH]; intros fs; simpl.
  - split; [done|]. intros k. split; [auto|]. intros [?|(x & Hx & _)]; [done|].
    by apply elem_of_nil in Hx.
  - destruct (add_fields_spec fs (feature_keys x)) as (_ & Hnd & Hmem).
    destruct (IH (add_fields fs (feature_keys x))) as [Hnd' Hmem'].
    split; [auto|]. intros k. rewrite Hmem', Hmem. split.
    + intros [[?|?]|(y & Hy & Hk)]; [by left|right; exists x|right; exists y];
        (split; [|done]); [by left|by right].
    + intros [?|(y & Hy & Hk)]; [by left; left|].
      apply elem_of_cons in Hy as [->|Hy]; [by left; right|]. right. eauto.
Qed.

(** What a successful conversion went through. *)
Lemma geojson2csv_rows_Done js table :
  geojson2csv_rows dumps js = Done table ->
  exists features items ps,
    features_of js = Some features
    /\ iterate features = Done items
    /\ parse_features dumps [] items
       = Done (ps, fold_left (fun acc x => add_fields acc (feature_keys x)) items [])
    /\ table = header (fold_left (fun acc x => add_fields acc (feature_keys x)) items [])
               :: (row dumps (fold_left (fun acc x => add_fields acc (feature_keys x)) items [])
                     <$> ps).
Proof.
  unfold geojson2csv_rows, features_of.
  destruct js as [| | | | | | |root]; try done.
  destruct (dict_lookup "type" root) as [ty|]; [|done].
  destruct (is_str ty "FeatureCollection"); [|done].
  destruct (dict_lookup "features" root) as [features|]; [|done].
  destruct (iterate features) as [items|e] eqn:Hit; simpl; [|done].
  destruct (parse_features dumps [] items) as [[ps fields]|e] eqn:Hp; simpl; [|done].
  intros [= <-]. pose proof (parse_features_Done _ _ _ _ Hp) as (_ & -> & _).
  by exists features, items, ps.
Qed.

(** The table handed to the CSV writer is rectangular.  Its first row is
    the header: id, then the property names without repetition, then
    geojson, type, longitude and latitude; it has one more row for each
    feature; and every row is as wide as the header. *)
Theorem geojson_table_is_rectangular (js : json) (table : list (list json)) :
  geojson2csv_rows dumps js = Done table ->
  exists features items fields rows,
    features_of js = Some features
    /\ iterate features = Done items
    /\ table = header fields :: rows
    /\ NoDup fields
    /\ length rows = length items
    /\ Forall (fun r => length r = length (header fields)) rows
    /\ length (header fields) = (5 + length fields)%nat.
Proof.
  intros Hrun.
  apply geojson2csv_rows_Done in Hrun as (features & items & ps & Hf & Hit & Hp & ->).
  destruct (parse_features_Done _ _ _ _ Hp) as (Hlen & _ & _).
  destruct (fold_add_fields_spec items []) as [Hnd _].
  eexists features, items, _, _. split; [done|]. split; [done|]. split; [done|].
  split; [apply Hnd; constructor|]. split; [by rewrite length_fmap|].
  split.
  - apply Forall_fmap, Forall_forall. intros p _. unfold row, header. simpl.
    rewrite !length_fmap, !length_app, !length_fmap. done.
  - unfold header. simpl. rewrite length_fmap, length_app. simpl. lia.
Qed.

(** The property columns of the header are exactly the keys that occur in
    the [properties] of some feature. *)
Theorem geojson_fields_are_the_property_keys
    (js : json) (table : list (list json)) (features : json) (items : list json)
    (k : string) :
  geojson2csv_rows dumps js = Done table ->
  features_of js = Some features ->
  iterate features = Done items ->
  exists fields rows,
    table = header fields :: rows
    /\ (k ∈ fields <-> exists feature, feature ∈ items /\ k ∈ feature_keys feature).
Proof.
  intros Hrun Hf Hit.
  apply geojson2csv_rows_Done in Hrun as (features' & items' & ps & Hf' & Hit' & Hp & ->).
  rewrite Hf in Hf'. injection Hf' as <-. rewrite Hit in Hit'. injection Hit' as <-.
  eexists _, _. split; [reflexivity|].
  pose proof (fold_add_fields_spec items []) as [_ Hmem]. cbv zeta in Hmem.
  rewrite Hmem. split; [|auto]. intros [Hk|?]; [|done]. by apply elem_of_nil in Hk.
Qed.

(** The root of the document is checked before anything else, in this
    order: it must be an object, have a "type", that type must be the
    string FeatureCollection, and it must have "features"; each check that
    fails raises its own error, and once all four pass no error about the
    root is raised any more. *)
Theorem geojson_root_is_checked_first (js : json) :
  let r := geojson2csv_rows dumps js in
  match js with
  | JObject root =>
      match dict_lookup "type" root with
      | None => r = Failed No_top_level_type
      | Some type =>
          if is_str type "FeatureCollection" then
            match dict_lookup "features" root with
            | None => r = Failed No_top_level_features
            | Some _ => forall e, r = Failed e -> is_root_error e = false
            end
          else r = Failed (Not_a_FeatureCollection type)
      end
  | _ => r = Failed Root_is_not_an_object
  end.
Proof.
  unfold geojson2csv_rows. destruct js as [| | | | | | |root]; try done.
  destruct (dict_lookup "type" root) as [ty|]; [|done].
  destruct (is_str ty "FeatureCollection"); [|done].
  destruct (dict_lookup "features" root) as [features|]; [|done].
  intros e. destruct (iterate features) as [items|e1] eqn:Hit; simpl.
  - destruct (parse_features dumps [] items) as [[ps fields]|e2] eqn:Hp; simpl; [done|].
    intros [= <-].
    apply parse_features_Failed in Hp as (pre & feature & post & _ & Hf & _).
    by eapply parse_feature_not_root_error.
  - intros [= <-]. destruct features; by simplify_eq/=.
Qed.

Lemma parse_features_first_failure pre feature post e fs :
  Forall (fun x => exists r, parse_feature dumps [] x = Done r) pre ->
  parse_feature dumps [] feature = Failed e ->
  parse_features dumps fs (pre ++ feature :: post) = Failed e.
Proof.
  intros Hpre Hf. revert fs. induction Hpre as [|x pre [[p f] Hx] _ IH]; intros fs; simpl.
  - by rewrite (parse_feature_Failed _ _ _ Hf fs).
  - apply parse_feature_fields in Hx as [_ Hany]. rewrite Hany. simpl. by rewrite IH.
Qed.

(** Features are converted in order and the first one that cannot be
    converted decides the error.  A feature that is not an object, or
    whose "properties" is present but not an object (null included), is an
    [AttributeError]; a feature without "geometry" is a [KeyError]; a Point
    whose "coordinates" is a list of fewer than two values is a
    [ValueError]. *)
Theorem geojson_first_bad_feature_decides
    (js features : json) (pre post : list json) (feature : json) (e : geo_error) :
  features_of js = Some features ->
  iterate features = Done (pre ++ feature :: post) ->
  Forall (fun x => exists r, parse_feature dumps [] x = Done r) pre ->
  (parse_feature dumps [] feature = Failed e -> geojson2csv_rows dumps js = Failed e)
  /\ (match feature with JObject _ => False | _ => True end ->
      parse_feature dumps [] feature = Failed (AttributeError feature "get"))
  /\ (forall pairs v,
        feature = JObject pairs -> dict_lookup "properties" pairs = Some v ->
        match v with JObject _ => False | _ => True end ->
        parse_feature dumps [] feature = Failed (AttributeError v "keys"))
  /\ (forall pairs,
        feature = JObject pairs ->
        match dict_lookup "properties" pairs with
        | None | Some (JObject _) => True
        | _ => False
        end ->
        dict_lookup "geometry" pairs = None ->
        parse_feature dumps [] feature = Failed (KeyError "geometry"))
  /\ (forall pairs gp coordinates,
        feature = JObject pairs ->
        match dict_lookup "properties" pairs with
        | None | Some (JObject _) => True
        | _ => False
        end ->
        dict_lookup "geometry" pairs = Some (JObject gp) ->
        dict_lookup "type" gp = Some (JString "Point") ->
        dict_lookup "coordinates" gp = Some (JArray coordinates) ->
        (length coordinates < 2)%nat ->
        parse_feature dumps [] feature
        = Failed (ValueError_unpack (length coordinates))).
Proof.
  intros Hf Hit Hpre. split; [|split; [|split; [|split]]].
  - intros Hbad. unfold geojson2csv_rows. unfold features_of in Hf.
    destruct js as [| | | | | | |root]; try done.
    destruct (dict_lookup "type" root) as [ty|]; [|done].
    destruct (is_str ty "FeatureCollection"); [|done].
    rewrite Hf, Hit. simpl. by rewrite (parse_features_first_failure _ _ _ e).
  - intros Hno. by destruct feature.
  - intros pairs v -> Hv Hno. unfold parse_feature. simpl. rewrite Hv. simpl.
    by destruct v.
  - intros pairs -> Hprops Hg. unfold parse_feature, getitem. simpl.
    destruct (dict_lookup "properties" pairs) as [[| | | | | | |props]|];
      try done; simpl; by rewrite Hg.
  - intros pairs gp coordinates -> Hprops Hg Hty Hco Hlen.
    unfold parse_feature, getitem. simpl.
    destruct gp as [|[k v] gp]; [done|]. simpl in Hty, Hco.
    destruct (dict_lookup "properties" pairs) as [[| | | | | | |props]|];
      try done; simpl; rewrite Hg; simpl; rewrite Hty; simpl;
      rewrite Hco; destruct coordinates as [|x [|y rest]]; simpl in *; try done; lia.
Qed.

Lemma parse_feature_Done fs pairs p fs' :
  parse_feature dumps fs (JObject pairs) = Done (p, fs') ->
  exists g,
    dict_lookup "geometry" pairs = Some g
    /\ geoid p = default JNull (dict_lookup "id" pairs)
    /\ properties p = default (JObject []) (dict_lookup "properties" pairs)
    /\ geometry p = dumps g
    /\ (truth g = false -> geometry_type p = JNull)
    /\ (forall gp, g = JObject gp -> gp <> [] ->
          geometry_type p = default JNull (dict_lookup "type" gp))
    /\ (is_str (geometry_type p) "Point" = false ->
        longitude p = JNull /\ latitude p = JNull)
    /\ (forall gp x y rest,
          g = JObject gp -> dict_lookup "type" gp = Some (JString "Point") ->
          dict_lookup "coordinates" gp = Some (JArray (x :: y :: rest)) ->
          longitude p = x /\ latitude p = y).
Proof.
  unfold parse_feature, getitem. simpl.
  destruct (keys _) as [ks|e]; simpl; [|done].
  destruct (dict_lookup "geometry" pairs) as [g|]; simpl; [|done].
  destruct (if truth g then get g "type" JNull else Done JNull) as [gt|e] eqn:Hgt;
    simpl; [|done].
  destruct (if is_str gt "Point" then _ else _) as [[lon lat]|e] eqn:Hc; simpl; [|done].
  intros [= <- <-]. simpl. exists g.
  split; [done|]. split; [done|]. split; [done|]. split; [done|].
  assert (Hobj : forall gp, g = JObject gp -> gp <> [] ->
            gt = default JNull (dict_lookup "type" gp)).
  { intros gp -> Hne. destruct gp; [done|]. simpl in Hgt. by injection Hgt as <-. }
  split; [|split; [exact Hobj|split]].
  - intros Hfalse. rewrite Hfalse in Hgt. by injection Hgt as <-.
  - intros Hnp. rewrite Hnp in Hc. by injection Hc as <- <-.
  - intros gp x y rest -> Hty Hco.
    assert (Hne : gp <> []) by (by destruct gp).
    rewrite (Hobj gp eq_refl Hne), Hty in Hc. simpl in Hc. rewrite Hco in Hc.
    simpl in Hc. by injection Hc as <- <-.
Qed.


End GeoJSONProperties.

(** * More examples *)

Lemma column_class_by_dialect_witness :
  let r := make_sql_table sample_env sample_table "t" (Some "mssql") None true [] 1 1
             initial_world in
  exists t, r.1 = Return t
    /\ exists column, sql_table_columns t !! 2%nat = Some column /\ class_of column = BIT.
Proof.
  eexists. split; [reflexivity|].
  exact (column_class_by_dialect sample_env sample_table "t" (Some "mssql") None true []
           1 1 initial_world _ _ 2%nat "flag" Boolean SQL_TYPE_MAP_inv eq_refl eq_refl).
Defined.

Lemma number_column_precision_rule_witness :
  let r := make_sql_table sample_env sample_table "t" (Some "mysql") None true [] 1 1
             initial_world in
  exists t, r.1 = Return t
    /\ type_ <$> sql_table_columns t !! 1%nat
       = Some (mkType DECIMAL None (Some 38) (Some 2)).
Proof.
  eexists. split; [reflexivity|].
  exact (number_column_precision_rule sample_env sample_table "t" (Some "mysql") None []
           1 1 initial_world _ _ 1%nat "amount" SQL_TYPE_MAP_inv eq_refl eq_refl).
Defined.

Lemma unconstrained_schema_ignores_the_data_witness :
  make_sql_table sample_env sample_table "t" (Some "mysql") None false [] 1 1 initial_world
  = make_sql_table holding_env
      (mkTable (column_names sample_table) (column_types sample_table) [])
      "t" (Some "mysql") None false [] 9 9 initial_world.
Proof.
  exact (proj1 (unconstrained_schema_ignores_the_data sample_env holding_env sample_table
                  (mkTable (column_names sample_table) (column_types sample_table) [])
                  "t" (Some "mysql") None [] 1 1 9 9 initial_world eq_refl)).
Defined.

Lemma sql_table_shape_witness :
  let r := make_sql_table sample_env sample_table "people" (Some "sqlite") (Some "main")
             true ["name"] 1 1 initial_world in
  exists t, r.1 = Return t
    /\ sql_table_name t = "people"
    /\ sql_table_schema t = Some "main"
    /\ name <$> sql_table_columns t = ["name"; "amount"; "flag"; "seen"]
    /\ unique_constraints t = [["name"]].
Proof.
  eexists. split; [reflexivity|].
  exact (sql_table_shape sample_env sample_table "people" (Some "sqlite") (Some "main")
           true ["name"] 1 1 initial_world _ _ SQL_TYPE_MAP_inv eq_refl).
Defined.

Lemma sample_env_accepts_writes : never_refuses_writes sample_env.
Proof. by intros history ev _. Qed.

Lemma to_sql_sends_drop_create_insert_witness :
  exists t w',
    to_sql sample_env sample_table (Existing sample_connection) "people" (chunked 2)
           caller_world
    = (Return t,
       with_log (log caller_world
                 ++ to_sql_events sample_table sample_connection t (chunked 2)) w')
    /\ length (to_sql_events sample_table sample_connection t (chunked 2)) = 4%nat.
Proof.
  destruct (to_sql_sends_drop_create_insert sample_env sample_table sample_connection
              "people" (chunked 2) caller_world SQL_TYPE_MAP_inv eq_refl
              (not_elem_of_empty (C := gset nat) _) sample_env_accepts_writes
              ltac:(discriminate))
    as (t & w' & _ & Hrun & _).
  exists t, w'. split; [exact Hrun|]. reflexivity.
Defined.

Lemma insert_stops_at_the_first_refusal_witness :
  let env := sample_env_with (refuses_inserts_after 3) in
  let batch (i : nat) :=
    insert_ev sample_connection (insert_statement empty_sql_table [])
              (chunk sample_table 1 (Z.of_nat i)) in
  insert_rows env sample_table sample_connection empty_sql_table [] (Some 1) caller_world
  = (Raise (DatabaseError (batch 1%nat)),
     with_log (log caller_world ++ (batch <$> seq 0 2)) caller_world).
Proof.
  intros env batch.
  apply (insert_stops_at_the_first_refusal env sample_table sample_connection
           empty_sql_table [] 1 1%nat caller_world).
  - discriminate.
  - apply not_elem_of_empty.
  - reflexivity.
  - intros j Hj. assert (j = 0%nat) as -> by lia. reflexivity.
  - reflexivity.
Defined.

Lemma zero_chunk_size_fails_after_create_witness :
  exists t w',
    to_sql sample_env sample_table (Existing sample_connection) "people" (chunked 0)
           caller_world
    = (Raise ZeroDivisionError,
       with_log (log caller_world
                 ++ [drop_ev sample_connection t true;
                     create_ev sample_connection t false]) w').
Proof.
  destruct (zero_chunk_size_fails_after_create sample_env sample_table sample_connection
              "people" (chunked 0) caller_world SQL_TYPE_MAP_inv eq_refl
              (not_elem_of_empty (C := gset nat) _) sample_env_accepts_writes
              eq_refl eq_refl)
    as (t & w' & _ & Hrun).
  exists t, w'. exact Hrun.
Defined.


Lemma to_sql_opens_writes_and_releases_witness :
  exists t w',
    to_sql sample_env sample_table (ConnectionString "mssql+pyodbc://db/prod") "people"
           (chunked 2) initial_world = (Return t, w')
    /\ length (log w') = 8%nat
    /\ released_own initial_world w'.
Proof.
  destruct (to_sql_opens_writes_and_releases sample_env sample_table
              "mssql+pyodbc://db/prod" "people" (chunked 2) initial_world
              SQL_TYPE_MAP_inv eq_refl (reflexivity _) (fun _ _ => eq_refl)
              ltac:(discriminate))
    as (t & w' & Hrun & Hlog & _ & Hrel).
  exists t, w'. split; [exact Hrun|]. split; [|exact Hrel].
  rewrite Hlog. reflexivity.
Defined.

Lemma failure_before_the_try_releases_nothing_witness :
  exists x w2,
    to_sql (sample_env_with create_fails) sample_table
           (ConnectionString "sqlite:///data.db") "people" to_sql_defaults initial_world
    = (Raise x, w2)
    /\ kept_own initial_world w2.
Proof.
  eexists _, _.
  apply (failure_before_the_try_releases_nothing (sample_env_with create_fails)
           sample_table "sqlite:///data.db" "people" to_sql_defaults initial_world).
  - split; reflexivity.
  - vm_compute. reflexivity.
Defined.

Lemma inference_keeps_names_and_flags_floats_witness :
  let cols := reflected_columns holding_env [] sample_connection "people" in
  exists names types cols',
    infer_columns cols initial_world = (Return (names, types, cols'), initial_world)
    /\ names = ["name"; "height"; "elapsed"]
    /\ asdecimal <$> cols' = [false; true; false].
Proof.
  intros cols. eexists _, _, _. split; [reflexivity|].
  destruct (inference_keeps_names_and_flags_floats cols initial_world initial_world
              _ _ _ eq_refl) as (_ & Hnames & _ & Hcols & _).
  split; [exact Hnames|]. rewrite Hcols. reflexivity.
Defined.

Lemma from_sql_reads_the_whole_table_witness :
  exists table w',
    from_sql holding_env (Existing sample_connection) "people" caller_world
    = (Return table, w')
    /\ column_names table = ["name"; "height"; "elapsed"]
    /\ length (rows table) = 2%nat
    /\ length (log w') = 5%nat.
Proof.
  eassert (Hrun : from_sql holding_env (Existing sample_connection) "people" caller_world
                  = (Return _, _)) by (vm_compute; reflexivity).
  destruct (from_sql_reads_the_whole_table holding_env sample_connection "people"
              caller_world _ _ Hrun) as (Hlog & Hnames & _ & Hrows).
  eexists _, _. split; [exact Hrun|]. split; [exact Hnames|].
  split; [rewrite Hrows; reflexivity|rewrite Hlog; reflexivity].
Defined.

Lemma sql_query_returns_the_last_result_witness :
  let query := "CREATE INDEX i ON agate (name);;SELECT name FROM agate;" in
  exists table w' init,
    sql_query sample_env sample_table query "agate" initial_world = (Return table, w')
    /\ statements query = init ++ ["SELECT name FROM agate"]
    /\ length (log w') = 7%nat.
Proof.
  intros query.
  eassert (Hrun : sql_query sample_env sample_table query "agate" initial_world
                  = (Return _, _)) by (vm_compute; reflexivity).
  destruct (sql_query_returns_the_last_result sample_env sample_table query "agate"
              initial_world _ _ Hrun) as (t & w2 & init & q & _ & Hst & _).
  eexists _, _, ["CREATE INDEX i ON agate (name)"].
  split; [exact Hrun|]. split; reflexivity.
Defined.


Lemma create_statement_is_repeatable_witness :
  let call := to_sql_create_statement sample_env (fun _ => true)
                (fun _ _ => Some "CREATE TABLE people (name VARCHAR)") (fun text => text)
                sample_table "people" (Some "postgresql") None true [] in
  call (call initial_world).2 = call initial_world
  /\ (call initial_world).1
     = Return (Statement "CREATE TABLE people (name VARCHAR);").
Proof.
  intros call. split; [|reflexivity].
  exact (proj1 (proj2 (create_statement_is_repeatable sample_env (fun _ => true)
                         (fun _ _ => Some "CREATE TABLE people (name VARCHAR)")
                         (fun text => text) sample_table "people" (Some "postgresql") None
                         true [] initial_world SQL_TYPE_MAP_inv))).
Defined.

Lemma geojson_table_is_rectangular_witness :
  exists table fields rows,
    geojson2csv_rows sample_dumps (sample_collection [sample_point; sample_shapeless])
    = Done table
    /\ table = header fields :: rows
    /\ fields = ["name"; "depth"; "tags"]
    /\ Forall (fun r => length r = 8%nat) rows.
Proof.
  eassert (Hrun : geojson2csv_rows sample_dumps
                    (sample_collection [sample_point; sample_shapeless]) = Done _)
    by reflexivity.
  destruct (geojson_table_is_rectangular sample_dumps _ _ Hrun)
    as (features & items & fields & rows & _ & _ & Htable & _ & _ & Hwide & _).
  injection Htable as Hheader Hrows.
  eexists _, _, _. split; [exact Hrun|]. split; [reflexivity|]. split; [reflexivity|].
  repeat constructor.
Defined.

Lemma geojson_fields_are_the_property_keys_witness :
  let js := sample_collection [sample_point; sample_shapeless] in
  exists table fields rows,
    geojson2csv_rows sample_dumps js = Done table
    /\ table = header fields :: rows
    /\ ("tags" ∈ fields <->
        exists feature, feature ∈ [sample_point; sample_shapeless]
                        /\ "tags" ∈ feature_keys feature).
Proof.
  intros js.
  eassert (Hrun : geojson2csv_rows sample_dumps js = Done _) by reflexivity.
  destruct (geojson_fields_are_the_property_keys sample_dumps js _
              (JArray [sample_point; sample_shapeless]) [sample_point; sample_shapeless]
              "tags" Hrun eq_refl eq_refl) as (fields & rows & Htable & Hiff).
  eexists _, fields, rows. split; [exact Hrun|]. split; [exact Htable|exact Hiff].
Defined.

Lemma geojson_root_is_checked_first_witness :
  geojson2csv_rows sample_dumps (JArray [sample_point]) = Failed Root_is_not_an_object
  /\ geojson2csv_rows sample_dumps (JObject [("type", JString "Feature")])
     = Failed (Not_a_FeatureCollection (JString "Feature"))
  /\ forall e, geojson2csv_rows sample_dumps (sample_collection [bad_properties]) = Failed e ->
               is_root_error e = false.
Proof.
  split; [|split].
  - exact (geojson_root_is_checked_first sample_dumps (JArray [sample_point])).
  - exact (geojson_root_is_checked_first sample_dumps (JObject [("type", JString "Feature")])).
  - exact (geojson_root_is_checked_first sample_dumps (sample_collection [bad_properties])).
Defined.

Lemma geojson_first_bad_feature_decides_witness :
  geojson2csv_rows sample_dumps (sample_collection [sample_point; bad_properties; JNull])
  = Failed (AttributeError JNull "keys").
Proof.
  apply (geojson_first_bad_feature_decides sample_dumps
           (sample_collection [sample_point; bad_properties; JNull])
           (JArray [sample_point; bad_properties; JNull])
           [sample_point] [JNull] bad_properties (AttributeError JNull "keys")
           eq_refl eq_refl).
  - constructor; [by eexists|constructor].
  - reflexivity.
Defined.

